(** * monkey-net [logger.py]: training logger and video-grid visualizer

    A shallow embedding of the two classes of [logger.py]:

    - [Logger] (lines 9-90): iteration counter, loss buffer, text log,
      periodic report and checkpoint triggers;
    - [Visualizer] (lines 93-152): keypoint overlay and column stitching on
      numpy arrays.

    Python objects are mutated in place and keep their mutations when an
    exception unwinds, so every method is a function from the state before
    the call to an outcome (returned value or raised exception) and the
    state after it. *)

From Stdlib Require Import ZArith QArith Qround Qabs String Ascii DecimalString List Lia.
From Stdlib Require DecimalPos DecimalZ.
From stdpp Require Import gmap strings list.

Local Open Scope Z_scope.

(** ** Exceptions and the state-and-exception monad *)

(** The Python exceptions the modelled code can raise.  [TypeError] and
    [ValueError] carry a tag naming the statement that raised them. *)
Inductive exn : Type :=
| ValueError (why : string)
| TypeError (why : string)
| ZeroDivisionError
| AttributeError
| KeyError (key : string)
| IndexError
| FileNotFoundError
| CollaboratorError.

Inductive outcome (A : Type) : Type :=
| Return (a : A)
| Raise (e : exn).
Arguments Return {A} a.
Arguments Raise {A} e.

(** A computation over a mutable state [S]: the state survives a raise. *)
Definition M (S A : Type) : Type := S -> outcome A * S.

Definition ret {S A} (a : A) : M S A := fun s => (Return a, s).
Definition raise {S A} (e : exn) : M S A := fun s => (Raise e, s).
Definition bind {S A B} (c : M S A) (k : A -> M S B) : M S B :=
  fun s => match c s with
           | (Return a, s') => k a s'
           | (Raise e, s') => (Raise e, s')
           end.
Definition get {S} : M S S := fun s => (Return s, s).
Definition modify {S} (f : S -> S) : M S unit := fun s => (Return tt, f s).
(** Lift a pure computation that may raise. *)
Definition lift {S A} (o : outcome A) : M S A := fun s => (o, s).
(** [if c: body] for a statement block. *)
Definition when {S} (c : bool) (body : M S unit) : M S unit :=
  if c then body else ret tt.

Notation "x <- c ;; k" := (bind c (fun x => k))
  (at level 100, c at next level, right associativity).
Notation "c ;;; k" := (bind c (fun _ => k))
  (at level 100, right associativity).

(** ** Python string helpers *)

(** [str(n)] for an [int]. *)
Definition str (n : Z) : string := NilZero.string_of_int (Z.to_int n).

Fixpoint zeros (n : nat) : string :=
  match n with O => "" | S n' => String "0" (zeros n') end.

(** [s.zfill(width)]: left-pad with zeros up to [width]; a leading sign
    stays in front of the padding. *)
Definition zfill (s : string) (width : Z) : string :=
  let len := Z.of_nat (String.length s) in
  if width <=? len then s
  else
    let fill := zeros (Z.to_nat (width - len)) in
    match s with
    | String c rest =>
        if (Ascii.eqb c "-" || Ascii.eqb c "+")%bool
        then String c (fill +:+ rest)
        else fill +:+ s
    | EmptyString => fill
    end.

(** [os.path.join(a, b)] on POSIX for one pair of components. *)
Definition path_join (a b : string) : string :=
  match b with
  | String "/" _ => b
  | _ =>
      if (String.eqb a "" || String.eqb (substring (String.length a - 1) 1 a) "/")%bool
      then a +:+ b
      else a +:+ "/" +:+ b
  end.

(** [sep.join(parts)]. *)
Fixpoint join (sep : string) (parts : list string) : string :=
  match parts with
  | [] => ""
  | [p] => p
  | p :: rest => p +:+ sep +:+ join sep rest
  end.

(** Rounding of the non-negative fraction [n/d] to an integer, ties to
    even, as the C library does for [%f]. *)
Definition round_half_even (n d : Z) : Z :=
  let q := n / d in
  let r := n mod d in
  if 2 * r <? d then q
  else if d <? 2 * r then q + 1
  else if Z.even q then q else q + 1.

(** ["%.5f" % v].  Loss values are modelled as exact rationals. *)
Definition format_5f (v : Q) : string :=
  let m := round_half_even (Z.abs (Qnum v) * 100000) (Zpos (Qden v)) in
  (if Qnum v <? 0 then "-" else "")
    +:+ str (m / 100000) +:+ "." +:+ zfill (str (m mod 100000)) 5.

(** [a % b] on Python ints: floor modulo, raising on a zero divisor. *)
Definition py_mod (a b : Z) : outcome Z :=
  if b =? 0 then Raise ZeroDivisionError else Return (a mod b).

(** ** numpy: column-wise mean of the loss buffer *)

(** Result of [np.array(rows).mean(axis=0)]: the scalar [nan] for an empty
    buffer, the vector of column means for a rectangular one. *)
Inductive ndmean : Type :=
| NaN
| Means (col : list Q).

Definition nan_not_iterable : exn :=
  TypeError "'numpy.float64' object is not iterable".
Definition ragged_mean : exn :=
  TypeError "unsupported operand type(s) for /: 'tuple' and 'int'".

Definition Qsum (l : list Q) : Q := fold_right Qplus (0 # 1)%Q l.

Definition column (j : nat) (rows : list (list Q)) : list Q :=
  map (fun row => nth j row (0 # 1)%Q) rows.

Definition np_mean_axis0 (rows : list (list Q)) : outcome ndmean :=
  match rows with
  | [] => Return NaN
  | r :: rest =>
      if forallb (fun r' => Nat.eqb (length r') (length r)) rest
      then Return (Means (map (fun j => Qred (Qsum (column j rows)
                                              / inject_Z (Z.of_nat (length rows))))
                              (seq 0 (length r))))
      else Raise ragged_mean
  end.

(** ** Logger (lines 9-90) *)

Section Logger.

(** State dictionaries of the wrapped model and optimizer. *)
Variables mstate ostate : Type.
(** One batch element of [inp['video_array']] and of [inp['kp_array']]. *)
Variables video kp : Type.
(** Output record of the model, and a rendered frame sequence. *)
Variables output image : Type.

(** The batch record handed to [log]; the key [kp_array] is optional. *)
Record batch : Type := {
  video_array : list video;
  kp_array : option (list kp)
}.

(** The dictionary built by [Logger.visualize_transfer] (lines 41-52). *)
Record transfer_batch : Type := {
  first_video_array : list video;
  second_video_array : list video;
  first_kp_array : option (list kp);
  second_kp_array : option (list kp)
}.

(** Collaborators: the model called as [model(inp)] and as
    [model(transfer_inp, True)], and the two [Visualizer] entry points.
    [None] stands for any exception raised inside them.  They read the
    model state and cannot reach the logger.  The batch is handed over by
    reference and may be overwritten on the way ([create_video_column]
    paints borders in place); the logger never reads its contents, and
    every property below holds for all collaborators and all batches. *)
Variable model_call : mstate -> batch -> option output.
Variable model_call_transfer : mstate -> transfer_batch -> option output.
Variable visualize_reconstruction : batch -> output -> option image.
Variable visualize_transfer_grid : transfer_batch -> output -> option image.

(** Values stored in a checkpoint dictionary. *)
Inductive cval : Type :=
| VModel (sd : mstate)
| VOptimizer (sd : ostate)
| VInt (n : Z).

(** Files written under [log_dir]. *)
Inductive file : Type :=
| Checkpoint (d : gmap string cval)
| Gif (im : image).

(** The logger object together with the files it has written (most
    recent write first).  [log_file] holds the lines printed through the
    append-mode handle, oldest first. *)
Record Logger : Type := {
  log_dir : string;
  loss_list : list (list Q);
  log_file : list string;
  log_freq : Z;
  cpk_freq : Z;
  fill_counter : Z;
  model : mstate;
  optimizer : option ostate;
  it : Z;
  disk : list (string * file)
}.

Definition set_loss_list (l : list (list Q)) (s : Logger) : Logger :=
  {| log_dir := log_dir s; loss_list := l; log_file := log_file s;
     log_freq := log_freq s; cpk_freq := cpk_freq s;
     fill_counter := fill_counter s; model := model s;
     optimizer := optimizer s; it := it s; disk := disk s |}.

Definition set_log_file (l : list string) (s : Logger) : Logger :=
  {| log_dir := log_dir s; loss_list := loss_list s; log_file := l;
     log_freq := log_freq s; cpk_freq := cpk_freq s;
     fill_counter := fill_counter s; model := model s;
     optimizer := optimizer s; it := it s; disk := disk s |}.

Definition set_it (n : Z) (s : Logger) : Logger :=
  {| log_dir := log_dir s; loss_list := loss_list s; log_file := log_file s;
     log_freq := log_freq s; cpk_freq := cpk_freq s;
     fill_counter := fill_counter s; model := model s;
     optimizer := optimizer s; it := n; disk := disk s |}.

Definition set_disk (d : list (string * file)) (s : Logger) : Logger :=
  {| log_dir := log_dir s; loss_list := loss_list s; log_file := log_file s;
     log_freq := log_freq s; cpk_freq := cpk_freq s;
     fill_counter := fill_counter s; model := model s;
     optimizer := optimizer s; it := it s; disk := d |}.

(** [Logger.__init__] (lines 10-23), on a disk holding [files]; the name
    of the text file plays no role, [log_file] stands for the handle. *)
Definition init (model0 : mstate) (dir : string) (optimizer0 : option ostate)
    (freq_log freq_cpk fill : Z) (files : list (string * file)) : Logger :=
  {| log_dir := dir; loss_list := []; log_file := [];
     log_freq := freq_log; cpk_freq := freq_cpk; fill_counter := fill;
     model := model0; optimizer := optimizer0; it := 0; disk := files |}.

(** [imageio.mimsave] and [torch.save]: write one file. *)
Definition write_file (path : string) (f : file) : M Logger unit :=
  modify (fun s => set_disk ((path, f) :: disk s) s).

(** [torch.load]: the latest file written at [path]. *)
Fixpoint read_file (files : list (string * file)) (path : string) : option file :=
  match files with
  | [] => None
  | (p, f) :: rest => if String.eqb p path then Some f else read_file rest path
  end.

Definition collaborator {A} (r : option A) : M Logger A :=
  match r with
  | Some a => ret a
  | None => raise CollaboratorError
  end.

(** [str(self.it).zfill(self.fill_counter)] followed by a suffix. *)
Definition it_name (s : Logger) (suffix : string) : string :=
  path_join (log_dir s) (zfill (str (it s)) (fill_counter s) +:+ suffix).

(** [Logger.log_scores] (lines 25-33). *)
Definition log_scores (loss_names : list string) : M Logger unit :=
  s <- get ;;
  loss_mean <- lift (np_mean_axis0 (loss_list s)) ;;
  pairs <- match loss_mean with
           | NaN => raise nan_not_iterable
           | Means col => ret (zip loss_names col)
           end ;;
  let loss_string :=
    join "; " (map (fun nv => fst nv +:+ " - " +:+ format_5f (snd nv)) pairs) in
  let loss_string := zfill (str (it s)) (fill_counter s) +:+ ") " +:+ loss_string in
  modify (fun s => set_log_file (log_file s ++ [loss_string]) s) ;;;
  modify (set_loss_list []).

(** [Logger.visualize_rec] (lines 35-38). *)
Definition visualize_rec (inp : batch) : M Logger unit :=
  s <- get ;;
  out <- collaborator (model_call (model s) inp) ;;
  im <- collaborator (visualize_reconstruction inp out) ;;
  write_file (it_name s "-rec.gif") (Gif im).

(** [a[range(bs)[::-1]]]: the first [bs] entries in reverse order. *)
Definition reverse_batch {A} (bs : nat) (a : list A) : outcome (list A) :=
  if (length a <? bs)%nat then Raise IndexError else Return (rev (take bs a)).

(** [Logger.visualize_transfer] (lines 40-57). *)
Definition visualize_transfer (inp : batch) : M Logger unit :=
  s <- get ;;
  let bs := length (video_array inp) in
  second_video <- lift (reverse_batch bs (video_array inp)) ;;
  second_kp <- match kp_array inp with
               | Some k => k' <- lift (reverse_batch bs k) ;; ret (Some k')
               | None => ret None
               end ;;
  let transfer_inp :=
    {| first_video_array := video_array inp;
       second_video_array := second_video;
       first_kp_array := kp_array inp;
       second_kp_array := second_kp |} in
  out <- collaborator (model_call_transfer (model s) transfer_inp) ;;
  im <- collaborator (visualize_transfer_grid transfer_inp out) ;;
  write_file (it_name s "-trans.gif") (Gif im).

(** [Logger.save_cpk] (lines 59-61).  The dictionary display evaluates
    [self.optimizer.state_dict()] on whatever [self.optimizer] is. *)
Definition save_cpk : M Logger unit :=
  s <- get ;;
  let d_model := VModel (model s) in
  d_optimizer <- match optimizer s with
                 | Some o => ret (VOptimizer o)
                 | None => raise AttributeError
                 end ;;
  let d : gmap string cval :=
    <["iter" := VInt (it s)]>
      (<["optimizer" := d_optimizer]> (<["model" := d_model]> ∅)) in
  write_file (it_name s "-checkpoint.pth.tar") (Checkpoint d).

(** [Logger.log] (lines 78-90). *)
Definition log (it0 : Z) (losses : list (string * Q)) (inp : batch) : M Logger unit :=
  nv <- match losses with
        | [] => raise (ValueError "not enough values to unpack (expected 2, got 0)")
        | _ => ret (map fst losses, map snd losses)
        end ;;
  let '(names, values) := nv in
  modify (set_it it0) ;;;
  modify (fun s => set_loss_list (loss_list s ++ [values]) s) ;;;
  s <- get ;;
  r <- lift (py_mod it0 (log_freq s)) ;;
  when (r =? 0)
    (log_scores names ;;;
     visualize_rec inp ;;;
     visualize_transfer inp) ;;;
  s <- get ;;
  r <- lift (py_mod it0 (cpk_freq s)) ;;
  when (r =? 0) save_cpk.

(** [Logger.load_cpk] (lines 63-69), a static method: it reads the files
    on disk and mutates the model and, when one is passed, the optimizer
    given by the caller; [None] is the default [optimizer=None]. *)
Definition load_cpk (files : list (string * file)) (checkpoint_path : string)
    : M (mstate * option ostate) cval :=
  checkpoint <- match read_file files checkpoint_path with
                | Some (Checkpoint d) => ret d
                | Some (Gif _) => raise (ValueError "not a checkpoint file")
                | None => raise FileNotFoundError
                end ;;
  sd <- match checkpoint !! "model" with
        | Some (VModel sd) => ret sd
        | Some _ => raise (TypeError "state_dict expected")
        | None => raise (KeyError "model")
        end ;;
  modify (fun mo => (sd, snd mo)) ;;;
  mo <- get ;;
  match snd mo with
  | Some _ =>
      match checkpoint !! "optimizer" with
      | Some (VOptimizer so) => modify (fun mo => (fst mo, Some so))
      | Some _ => raise (TypeError "state_dict expected")
      | None => raise (KeyError "optimizer")
      end
  | None => ret tt
  end ;;;
  match checkpoint !! "iter" with
  | Some v => ret v
  | None => raise (KeyError "iter")
  end.

(** One call [logger.log(it, loss_list, inp)] of the training loop. *)
Record log_call : Type := {
  call_it : Z;
  call_losses : list (string * Q);
  call_inp : batch
}.

(** A training loop: successive [log] calls on one logger, stopping at
    the first exception. *)
Fixpoint run (calls : list log_call) : M Logger unit :=
  match calls with
  | [] => ret tt
  | c :: rest =>
      log (call_it c) (call_losses c) (call_inp c) ;;; run rest
  end.

(** Number of [log] calls since the last flush of the buffer, starting
    from [n] pending calls: a call whose iteration is divisible by the
    report interval flushes. *)
Definition calls_since_flush (freq : Z) (n : nat) (calls : list log_call) : nat :=
  fold_left (fun k c => if call_it c mod freq =? 0 then O else S k) calls n.

(** The logger after a report block (lines 85-87) that printed [line] and
    wrote the images [rec] and [trans]. *)
Definition report_state (line : string) (rec trans : image) (s : Logger) : Logger :=
  set_disk ((it_name s "-trans.gif", Gif trans)
              :: (it_name s "-rec.gif", Gif rec) :: disk s)
    (set_loss_list [] (set_log_file (log_file s ++ [line]) s)).

(** The values of [self.it] observed after each call of a training loop,
    up to the first exception. *)
Fixpoint its_after (calls : list log_call) (s : Logger) : list Z :=
  match calls with
  | [] => []
  | c :: rest =>
      match log (call_it c) (call_losses c) (call_inp c) s with
      | (Return _, s') => it s' :: its_after rest s'
      | (Raise _, _) => []
      end
  end.

End Logger.

Arguments video_array {video kp} _.
Arguments kp_array {video kp} _.
Arguments Build_batch {video kp} _ _.
Arguments call_it {video kp} _.
Arguments call_losses {video kp} _.
Arguments call_inp {video kp} _.
Arguments Build_log_call {video kp} _ _ _.
Arguments VModel {mstate ostate} sd.
Arguments VOptimizer {mstate ostate} sd.
Arguments VInt {mstate ostate} n.
Arguments Checkpoint {mstate ostate image} d.
Arguments Gif {mstate ostate image} im.
Arguments log_dir {mstate ostate image} _.
Arguments loss_list {mstate ostate image} _.
Arguments log_file {mstate ostate image} _.
Arguments log_freq {mstate ostate image} _.
Arguments cpk_freq {mstate ostate image} _.
Arguments fill_counter {mstate ostate image} _.
Arguments model {mstate ostate image} _.
Arguments optimizer {mstate ostate image} _.
Arguments it {mstate ostate image} _.
Arguments disk {mstate ostate image} _.
Arguments set_loss_list {mstate ostate image} l s.
Arguments set_log_file {mstate ostate image} l s.
Arguments set_it {mstate ostate image} n s.
Arguments set_disk {mstate ostate image} d s.
Arguments init {mstate ostate image} model0 dir optimizer0 freq_log freq_cpk fill files.
Arguments write_file {mstate ostate image} path f _.
Arguments read_file {mstate ostate image} files path.
Arguments it_name {mstate ostate image} s suffix.
Arguments log_scores {mstate ostate image} loss_names _.
Arguments visualize_rec {mstate ostate video kp output image} _ _ inp _.
Arguments visualize_transfer {mstate ostate video kp output image} _ _ inp _.
Arguments save_cpk {mstate ostate image} _.
Arguments load_cpk {mstate ostate image} files checkpoint_path _.
Arguments log {mstate ostate video kp output image} _ _ _ _ it0 losses inp _.
Arguments run {mstate ostate video kp output image} _ _ _ _ calls _.
Arguments calls_since_flush {video kp} freq n calls.
Arguments report_state {mstate ostate image} line rec trans s.
Arguments its_after {mstate ostate video kp output image} _ _ _ _ calls s.

(** ** numpy arrays on a heap *)

(** Python hands arrays around by reference, so the arrays live on a heap
    (a list of objects addressed by position; [np.copy] allocates) and the
    methods of [Visualizer] take and return references. *)
Abbreviation loc := nat.

(** Read an object; a Python reference always points to a live object, the
    failing branch is never taken from a reference obtained from the heap. *)
Definition deref {A} (l : loc) : M (list A) A :=
  fun h => match h !! l with
           | Some a => (Return a, h)
           | None => (Raise (ValueError "dangling reference"), h)
           end.

Definition store {A} (l : loc) (a : A) : M (list A) unit :=
  modify (fun h => <[l := a]> h).

Definition alloc {A} (a : A) : M (list A) loc :=
  fun h => (Return (length h), h ++ [a]).

(** [for x in l: body]. *)
Fixpoint for_each {S A} (l : list A) (body : A -> M S unit) : M S unit :=
  match l with
  | [] => ret tt
  | x :: rest => body x ;;; for_each rest body
  end.

(** Evaluate a fallible function on every element, left to right. *)
Fixpoint traverse {A B} (f : A -> outcome B) (l : list A) : outcome (list B) :=
  match l with
  | [] => Return []
  | x :: rest =>
      match f x with
      | Raise e => Raise e
      | Return y =>
          match traverse f rest with
          | Raise e => Raise e
          | Return ys => Return (y :: ys)
          end
      end
  end.

(** An integer index on an axis of size [n]: negative indices count from
    the end, anything outside [-n, n) raises. *)
Definition norm_index (n : nat) (k : Z) : outcome nat :=
  if (0 <=? k) && (k <? Z.of_nat n) then Return (Z.to_nat k)
  else if (- Z.of_nat n <=? k) && (k <? 0) then Return (Z.to_nat (k + Z.of_nat n))
  else Raise IndexError.

(** [a[i]] on a Python sequence for a non-negative [i]. *)
Definition item {A} (a : list A) (i : nat) : outcome A :=
  match a !! i with
  | Some x => Return x
  | None => Raise IndexError
  end.

(** ** Visualizer (lines 93-152) *)

Section Visualizer.

(** The values of one pixel along the channel axis (the last axis of every
    array here, of size 3), in the dtype of the array; [white] is the tuple
    [(1, 1, 1)] cast to that dtype. *)
Variable pixel : Type.
Variable white : pixel.

(** [skimage.draw.circle(r, c, radius, shape)], a third-party routine: the
    index arrays [(rr, cc)] it returns have equal length and are kept as a
    list of (row, column) pairs. *)
Variable circle : Q -> Q -> Q -> list nat -> outcome (list (Z * Z)).

(** One video: an array of shape [(frames, height, width, 3)] in C order. *)
Record ndvideo : Type := {
  frames : nat;
  height : nat;
  width : nat;
  pixels : list pixel
}.

(** A batch of videos: shape [(batch, frames, height, width, 3)]. *)
Record ndbatch : Type := {
  b_batch : nat;
  b_frames : nat;
  b_height : nat;
  b_width : nat;
  b_pixels : list pixel
}.

(** [Visualizer.__init__] (lines 94-96). *)
Record Visualizer : Type := {
  kp_size : Q;
  draw_border : bool
}.

Definition set_pixels (d : list pixel) (a : ndvideo) : ndvideo :=
  {| frames := frames a; height := height a; width := width a; pixels := d |}.

Definition set_b_pixels (d : list pixel) (a : ndbatch) : ndbatch :=
  {| b_batch := b_batch a; b_frames := b_frames a; b_height := b_height a;
     b_width := b_width a; b_pixels := d |}.

(** Position of pixel [(i, y, x)] in the buffer of a video. *)
Definition offset (a : ndvideo) (i y x : nat) : nat :=
  ((i * height a + y) * width a + x)%nat.

Definition pixel_at (a : ndvideo) (i y x : nat) : option pixel :=
  pixels a !! offset a i y x.

(** Two videos of the same shape (the dtype is the type [pixel]). *)
Definition same_shape (a b : ndvideo) : Prop :=
  frames b = frames a /\ height b = height a /\ width b = width a
  /\ length (pixels b) = length (pixels a).

(** Frame [i] of [b] equals frame [i] of [a], pixel for pixel. *)
Definition same_frame (a b : ndvideo) (i : nat) : Prop :=
  forall y x, (y < height a)%nat -> (x < width a)%nat ->
    pixel_at b i y x = pixel_at a i y x.

(** An index pair accepted by numpy on a frame of [a]. *)
Definition valid_point (a : ndvideo) (p : Z * Z) : Prop :=
  - Z.of_nat (height a) <= fst p < Z.of_nat (height a)
  /\ - Z.of_nat (width a) <= snd p < Z.of_nat (width a).

(** The heap while [draw_video_with_kp], called on the heap [h] with the
    input [src], is running: the arrays of [h] are as they were, and the
    one array allocated since has the shape of [src] and agrees with it on
    every frame in [keep]. *)
Definition drawing (h : list ndvideo) (src : ndvideo) (keep : nat -> Prop)
    (hx : list ndvideo) : Prop :=
  length hx = S (length h)
  /\ (forall l, (l < length h)%nat -> hx !! l = h !! l)
  /\ exists res, hx !! length h = Some res /\ same_shape src res
                 /\ forall i, keep i -> same_frame src res i.

(** The buffer position addressed by one index pair [(rr[k], cc[k])] in
    frame [i] (line 103). *)
Definition point_offset (a : ndvideo) (i : nat) (p : Z * Z) : outcome nat :=
  match norm_index (height a) (fst p) with
  | Raise e => Raise e
  | Return y =>
      match norm_index (width a) (snd p) with
      | Raise e => Raise e
      | Return x => Return (offset a i y x)
      end
  end.

(** [video_array[i][rr, cc] = (1, 1, 1)] (line 103): every index pair is
    checked against the frame's height and width before anything is
    written. *)
Definition assign_disk (video_array : loc) (i : nat) (pts : list (Z * Z))
    : M (list ndvideo) unit :=
  a <- deref video_array ;;
  offs <- lift (traverse (point_offset a i) pts) ;;
  store video_array
    (set_pixels (fold_left (fun d off => <[off := white]> d) offs (pixels a)) a).

(** Body of the inner loop (lines 102-103) for the keypoint
    [(kp[0], kp[1])] of frame [i]; [video_array.shape[1:2]] is the
    one-element tuple [(height,)]. *)
Definition draw_keypoint (self : Visualizer) (video_array : loc) (i : nat)
    (kp : Q * Q) : M (list ndvideo) unit :=
  a <- deref video_array ;;
  pts <- lift (circle (snd kp) (fst kp) (kp_size self)
                      (take 1 (drop 1 [frames a; height a; width a]))) ;;
  assign_disk video_array i pts.

(** Body of the outer loop (lines 101-103) for frame [i]. *)
Definition draw_frame (self : Visualizer) (kp_array : list (list (Q * Q)))
    (video_array : loc) (i : nat) : M (list ndvideo) unit :=
  kps <- lift (item kp_array i) ;;
  for_each kps (draw_keypoint self video_array i).

(** [Visualizer.draw_video_with_kp] (lines 98-104). *)
Definition draw_video_with_kp (self : Visualizer) (video : loc)
    (kp_array : list (list (Q * Q))) : M (list ndvideo) loc :=
  src <- deref video ;;
  video_array <- alloc src ;;
  for_each (seq 0 (frames src)) (draw_frame self kp_array video_array) ;;;
  ret video_array.

(** [videos[:, :, [0, -1]] = (1, 1, 1)] (line 112): rows [0] and [-1] of
    every frame. *)
Definition paint_rows (b : ndbatch) : outcome ndbatch :=
  if Nat.eqb (b_height b) 0 then Raise IndexError
  else Return (set_b_pixels
         (imap (fun k p =>
                  let y := ((k / b_width b) mod b_height b)%nat in
                  if (Nat.eqb y 0 || Nat.eqb y (b_height b - 1))%bool
                  then white else p)
               (b_pixels b)) b).

(** [videos[:, :, :, [0, -1]] = (1, 1, 1)] (line 113): columns [0] and
    [-1] of every frame. *)
Definition paint_columns (b : ndbatch) : outcome ndbatch :=
  if Nat.eqb (b_width b) 0 then Raise IndexError
  else Return (set_b_pixels
         (imap (fun k p =>
                  let x := (k mod b_width b)%nat in
                  if (Nat.eqb x 0 || Nat.eqb x (b_width b - 1))%bool
                  then white else p)
               (b_pixels b)) b).

(** [np.concatenate(list(videos), axis=1)] (line 114): the batch elements
    stacked along the height axis, as a new array. *)
Definition concatenate_axis1 (b : ndbatch) : outcome ndvideo :=
  if Nat.eqb (b_batch b) 0
  then Raise (ValueError "need at least one array to concatenate")
  else
    let frame_len := (b_height b * b_width b)%nat in
    Return {| frames := b_frames b;
              height := (b_batch b * b_height b)%nat;
              width := b_width b;
              pixels :=
                flat_map (fun t =>
                  flat_map (fun n =>
                    take frame_len
                      (drop ((n * b_frames b + t) * frame_len) (b_pixels b)))
                    (seq 0 (b_batch b)))
                  (seq 0 (b_frames b)) |}.

(** [Visualizer.create_video_column] (lines 110-114). *)
Definition create_video_column (self : Visualizer) (videos : loc)
    : M (list ndbatch) ndvideo :=
  when (draw_border self)
    (b <- deref videos ;;
     b1 <- lift (paint_rows b) ;;
     store videos b1 ;;;
     b1 <- deref videos ;;
     b2 <- lift (paint_columns b1) ;;
     store videos b2) ;;;
  b <- deref videos ;;
  lift (concatenate_axis1 b).

End Visualizer.

Arguments frames {pixel} _.
Arguments height {pixel} _.
Arguments width {pixel} _.
Arguments pixels {pixel} _.
Arguments Build_ndvideo {pixel} _ _ _ _.
Arguments b_batch {pixel} _.
Arguments b_frames {pixel} _.
Arguments b_height {pixel} _.
Arguments b_width {pixel} _.
Arguments b_pixels {pixel} _.
Arguments Build_ndbatch {pixel} _ _ _ _ _.
Arguments set_pixels {pixel} d a.
Arguments set_b_pixels {pixel} d a.
Arguments offset {pixel} a i y x.
Arguments pixel_at {pixel} a i y x.
Arguments same_shape {pixel} a b.
Arguments same_frame {pixel} a b i.
Arguments valid_point {pixel} a p.
Arguments drawing {pixel} h src keep hx.
Arguments point_offset {pixel} a i p.
Arguments assign_disk {pixel} white video_array i pts _.
Arguments draw_keypoint {pixel} white circle self video_array i kp _.
Arguments draw_frame {pixel} white circle self kp_array video_array i _.
Arguments draw_video_with_kp {pixel} white circle self video kp_array _.
Arguments paint_rows {pixel} white b.
Arguments paint_columns {pixel} white b.
Arguments concatenate_axis1 {pixel} b.
Arguments create_video_column {pixel} white self videos _.

(** ** The disk rasterizer *)

(** The integers [lo, lo+1, ..., hi]. *)
Definition zrange (lo hi : Z) : list Z :=
  map (fun k => lo + Z.of_nat k) (seq 0 (Z.to_nat (hi - lo + 1))).

(** Modelled from the spec: [skimage.draw.circle] is a library routine, not
    part of the repository; the spec describes it as computing the integer
    pixel coordinates within the radius of the centre, clipped to the
    bounds it is given.  The model follows scikit-image 0.14
    ([ellipse] with equal radii and no rotation): the bounding box
    [ceil(centre - radius) .. floor(centre + radius)] is clipped below by
    [0] and above by [shape[:2] - 1], a one-element [shape] being broadcast
    to both axes; the pixels kept are those whose normalised squared
    distance to the centre is below [1], in row-major order. *)
Definition skimage_circle (r c radius : Q) (shape : list nat)
    : outcome (list (Z * Z)) :=
  match shape with
  | [] => Raise (ValueError "operands could not be broadcast together")
  | s0 :: rest =>
      let s1 := match rest with [] => s0 | s1 :: _ => s1 end in
      let rad := Qabs radius in
      let top := Z.max (Qceiling (r - rad)) 0 in
      let left := Z.max (Qceiling (c - rad)) 0 in
      let bottom := Z.min (Qfloor (r + rad)) (Z.of_nat s0 - 1) in
      let right := Z.min (Qfloor (c + rad)) (Z.of_nat s1 - 1) in
      let inside (y x : Z) : bool :=
        if Qeq_bool radius 0 then false
        else
          let dy := ((inject_Z y - r) / radius)%Q in
          let dx := ((inject_Z x - c) / radius)%Q in
          negb (Qle_bool 1 (dy * dy + dx * dx)) in
      Return (flat_map (fun y =>
                flat_map (fun x => if inside y x then [(y, x)] else [])
                         (zrange left right))
              (zrange top bottom))
  end.

(** ** Image grids (lines 106-123) *)

(** [[f(x) for x in l]] for a method [f]. *)
Fixpoint for_list {S A B} (f : A -> M S B) (l : list A) : M S (list B) :=
  match l with
  | [] => ret []
  | x :: rest => y <- f x ;; ys <- for_list f rest ;; ret (y :: ys)
  end.

Section ImageGrid.

Variable pixel : Type.
Variable white : pixel.
Variable circle : Q -> Q -> Q -> list nat -> outcome (list (Z * Z)).

(** The arrays alive in the interpreter: videos and batches of videos. *)
Record arrays : Type := {
  videos_of : list (ndvideo pixel);
  batches_of : list (ndbatch pixel)
}.

Definition on_videos {A} (m : M (list (ndvideo pixel)) A) : M arrays A :=
  fun w => let (r, h) := m (videos_of w) in
           (r, {| videos_of := h; batches_of := batches_of w |}).

Definition on_batches {A} (m : M (list (ndbatch pixel)) A) : M arrays A :=
  fun w => let (r, h) := m (batches_of w) in
           (r, {| videos_of := videos_of w; batches_of := h |}).

(** [video[n]], the element [n] of a batch met when iterating over it.
    numpy hands out a view; the code only reads it ([draw_video_with_kp]
    copies before it writes), so the view is kept as an array holding the
    pixels of that element. *)
Definition batch_element (b : ndbatch pixel) (n : nat) : ndvideo pixel :=
  let len := (b_frames b * b_height b * b_width b)%nat in
  {| frames := b_frames b; height := b_height b; width := b_width b;
     pixels := take len (drop (n * len) (b_pixels b)) |}.

(** [np.array(vs)] for a non-empty list of videos of one shape (here the
    copies of the elements of one batch): a batch with one element per
    video.  For the empty list numpy builds a one-dimensional array of
    length 0, for which there is no batch. *)
Definition stack (vs : list (ndvideo pixel)) : option (ndbatch pixel) :=
  match vs with
  | [] => None
  | v0 :: _ =>
      Some {| b_batch := length vs; b_frames := frames v0; b_height := height v0;
              b_width := width v0; b_pixels := flat_map pixels vs |}
  end.

(** [Visualizer.create_video_column_with_kp] (lines 106-108); [kp] holds
    the keypoint array of each batch element.  On the one-dimensional
    array of an empty comprehension, line 112 raises [IndexError] (too many
    indices) and line 114 raises [ValueError]. *)
Definition create_video_column_with_kp (self : Visualizer) (video : loc)
    (kp : list (list (list (Q * Q)))) : M arrays (ndvideo pixel) :=
  b <- on_batches (deref video) ;;
  refs <- for_list (fun nk =>
            v <- on_videos (alloc (batch_element b (fst nk))) ;;
            on_videos (draw_video_with_kp white circle self v (snd nk)))
          (zip (seq 0 (b_batch b)) kp) ;;
  drawn <- for_list (fun r => on_videos (deref r)) refs ;;
  match stack drawn with
  | None =>
      raise (if draw_border self then IndexError
             else ValueError "need at least one array to concatenate")
  | Some arr =>
      video_array <- on_batches (alloc arr) ;;
      on_batches (create_video_column white self video_array)
  end.

(** One positional argument of [create_image_grid]: a batch, or the tuple
    of a batch and its keypoints. *)
Inductive group : Type :=
| Plain (videos : loc)
| WithKeypoints (videos : loc) (kp : list (list (list (Q * Q)))).

(** [np.concatenate(out, axis=2)] (line 123): columns of equal frame count
    and height side by side. *)
Definition concatenate_axis2 (cols : list (ndvideo pixel)) : outcome (ndvideo pixel) :=
  match cols with
  | [] => Raise (ValueError "need at least one array to concatenate")
  | c0 :: rest =>
      if forallb (fun c => Nat.eqb (frames c) (frames c0)
                           && Nat.eqb (height c) (height c0)) rest
      then Return
             {| frames := frames c0; height := height c0;
                width := list_sum (map width cols);
                pixels :=
                  flat_map (fun t =>
                    flat_map (fun y =>
                      flat_map (fun c =>
                        take (width c)
                          (drop ((t * height c + y) * width c) (pixels c)))
                        cols)
                      (seq 0 (height c0)))
                    (seq 0 (frames c0)) |}
      else Raise (ValueError "all the input array dimensions except for the concatenation axis must match exactly")
  end.

(** [Visualizer.create_image_grid] (lines 116-123). *)
Definition create_image_grid (self : Visualizer) (args : list group)
    : M arrays (ndvideo pixel) :=
  out <- for_list (fun arg =>
           match arg with
           | WithKeypoints videos kp => create_video_column_with_kp self videos kp
           | Plain videos => on_batches (create_video_column white self videos)
           end) args ;;
  lift (concatenate_axis2 out).

(** Every array of [w] is still there in [w'], unchanged, except the
    batches whose reference satisfies [touched]. *)
Definition arrays_kept (touched : loc -> Prop) (w w' : arrays) : Prop :=
  (length (videos_of w) <= length (videos_of w'))%nat
  /\ (length (batches_of w) <= length (batches_of w'))%nat
  /\ (forall l, (l < length (videos_of w))%nat ->
        videos_of w' !! l = videos_of w !! l)
  /\ (forall l, (l < length (batches_of w))%nat -> ~ touched l ->
        batches_of w' !! l = batches_of w !! l).

End ImageGrid.

Arguments videos_of {pixel} _.
Arguments batches_of {pixel} _.
Arguments Build_arrays {pixel} _ _.
Arguments on_videos {pixel A} m _.
Arguments on_batches {pixel A} m _.
Arguments batch_element {pixel} b n.
Arguments stack {pixel} vs.
Arguments create_video_column_with_kp {pixel} white circle self video kp _.
Arguments concatenate_axis2 {pixel} cols.
Arguments create_image_grid {pixel} white circle self args _.
Arguments arrays_kept {pixel} touched w w'.

(** ** Reading arrays *)

(** The buffer of a video or batch has one pixel per index of its shape. *)
Definition wf_video {pixel} (a : ndvideo pixel) : Prop :=
  length (pixels a) = (frames a * height a * width a)%nat.

Definition wf_batch {pixel} (b : ndbatch pixel) : Prop :=
  length (b_pixels b) = (b_batch b * b_frames b * b_height b * b_width b)%nat.

(** Pixel [(n, t, y, x)] of a batch. *)
Definition batch_offset {pixel} (b : ndbatch pixel) (n t y x : nat) : nat :=
  (((n * b_frames b + t) * b_height b + y) * b_width b + x)%nat.

Definition batch_pixel_at {pixel} (b : ndbatch pixel) (n t y x : nat) : option pixel :=
  b_pixels b !! batch_offset b n t y x.

(** First or last row, first or last column of a frame of the batch. *)
Definition on_border {pixel} (b : ndbatch pixel) (y x : nat) : bool :=
  (Nat.eqb y 0 || Nat.eqb y (b_height b - 1)
   || Nat.eqb x 0 || Nat.eqb x (b_width b - 1))%bool.

(** The array of [b] after lines 112-113. *)
Definition painted {pixel} (white : pixel) (b : ndbatch pixel) : ndbatch pixel :=
  set_b_pixels
    (imap (fun k p =>
             let x := (k mod b_width b)%nat in
             if (Nat.eqb x 0 || Nat.eqb x (b_width b - 1))%bool then white else p)
       (imap (fun k p =>
                let y := ((k / b_width b) mod b_height b)%nat in
                if (Nat.eqb y 0 || Nat.eqb y (b_height b - 1))%bool then white else p)
          (b_pixels b))) b.

(** Pixel [(y, x)] of a frame of [a] is among the index pairs the
    rasterizer yields for one of the keypoints [kps]. *)
Definition covered {pixel}
    (circle : Q -> Q -> Q -> list nat -> outcome (list (Z * Z)))
    (self : Visualizer) (a : ndvideo pixel) (kps : list (Q * Q)) (y x : nat) : Prop :=
  exists kp pts p,
    In kp kps
    /\ circle (snd kp) (fst kp) (kp_size self) [height a] = Return pts
    /\ In p pts
    /\ norm_index (height a) (fst p) = Return y
    /\ norm_index (width a) (snd p) = Return x.

(** ** Scoped use of the logger (lines 71-76) *)

(** Whether the rows of a loss buffer all have the length of the first:
    [np.array] builds a two-dimensional array exactly then. *)
Definition rectangular (rows : list (list Q)) : bool :=
  match rows with
  | [] => true
  | r :: rest => forallb (fun r' => Nat.eqb (length r') (length r)) rest
  end.

(** What logging leaves alone between two states of the logger: the
    configuration, the wrapped model and optimizer, and every file already
    written (files are only added, in front). *)
Definition logging_keeps {mstate ostate image}
    (s s' : Logger mstate ostate image) : Prop :=
  log_dir s' = log_dir s /\ log_freq s' = log_freq s /\ cpk_freq s' = cpk_freq s
  /\ fill_counter s' = fill_counter s /\ model s' = model s
  /\ optimizer s' = optimizer s
  /\ exists written, disk s' = written ++ disk s.

(** A call the logger can serve: [width] named losses, and keypoints, when
    the batch has any, for every video of the batch. *)
Definition servable {video kp} (width : nat) (c : log_call video kp) : Prop :=
  length (call_losses c) = width
  /\ match kp_array (call_inp c) with
     | Some k => (length (video_array (call_inp c)) <= length k)%nat
     | None => True
     end.

(** Run a method of the logger next to the flag that tells whether the
    handle [self.log_file] has been closed. *)
Definition on_logger {mstate ostate image A}
    (m : M (Logger mstate ostate image) A)
    : M (Logger mstate ostate image * bool) A :=
  fun sc => let (r, s') := m (fst sc) in (r, (s', snd sc)).

(** [Logger.__exit__] (lines 74-76): a last checkpoint, then
    [self.log_file.close()].  It returns [None], so an exception of the
    enclosed block is not suppressed. *)
Definition logger_exit {mstate ostate image}
    : M (Logger mstate ostate image * bool) unit :=
  on_logger save_cpk ;;;
  modify (fun sc => (fst sc, true)).

(** [with logger: body]: [__enter__] (lines 71-72) hands back the logger
    itself, the block runs, and [__exit__] runs whether the block returned
    or raised; an exception raised by [__exit__] replaces the outcome of
    the block. *)
Definition with_logger {mstate ostate image A}
    (body : M (Logger mstate ostate image) A)
    : M (Logger mstate ostate image * bool) A :=
  fun sc =>
    let (r, sc1) := on_logger body sc in
    match logger_exit sc1 with
    | (Return _, sc2) => (r, sc2)
    | (Raise e, sc2) => (Raise e, sc2)
    end.

(** ** Concrete objects used in the examples *)

(** A logger over trivial collaborators: model and optimizer states, batch
    elements, model outputs and images are all [unit], and every
    collaborator call succeeds. *)
Definition demo_model : unit -> batch unit unit -> option unit :=
  fun _ _ => Some tt.
Definition demo_model_transfer : unit -> transfer_batch unit unit -> option unit :=
  fun _ _ => Some tt.
Definition demo_reconstruction : batch unit unit -> unit -> option unit :=
  fun _ _ => Some tt.
Definition demo_transfer_grid : transfer_batch unit unit -> unit -> option unit :=
  fun _ _ => Some tt.

Abbreviation demo_log :=
  (log demo_model demo_model_transfer demo_reconstruction demo_transfer_grid).
Abbreviation demo_run :=
  (run demo_model demo_model_transfer demo_reconstruction demo_transfer_grid).
Abbreviation demo_its_after :=
  (its_after demo_model demo_model_transfer demo_reconstruction demo_transfer_grid).

Definition demo_batch : batch unit unit :=
  {| video_array := [tt; tt]; kp_array := Some [tt; tt] |}.

Definition demo_call (n : Z) : log_call unit unit :=
  {| call_it := n; call_losses := [("a", 1%Q); ("b", 3%Q)]; call_inp := demo_batch |}.

(** [Logger(model, "log", optimizer)] with the default intervals. *)
Definition default_logger : Logger unit unit unit :=
  init tt "log" (Some tt) 100 1000 8 [].

(** [Logger(model, "log", optimizer, log_freq=2, cpk_freq=4)]. *)
Definition frequent_logger : Logger unit unit unit :=
  init tt "log" (Some tt) 2 4 8 [].

(** A logger whose buffer holds a record of one loss and a record of two. *)
Definition ragged_logger : Logger unit unit unit :=
  set_loss_list [[1%Q]; [1%Q; 3%Q]] frequent_logger.

(** A logger with a zero report interval. *)
Definition stalled_logger : Logger unit unit unit :=
  init tt "log" (Some tt) 0 4 8 [].

(** A checkpoint file written without an optimizer entry. *)
Definition model_only_checkpoint : gmap string (cval unit unit) :=
  <["iter" := VInt 3]> (<["model" := VModel tt]> ∅).

Definition model_only_disk : list (string * file unit unit unit) :=
  [("old.pth.tar", Checkpoint model_only_checkpoint)].

(** RGB pixels with integer channels; [Visualizer()] with its defaults. *)
Definition rgb : Type := (Z * Z * Z)%type.
Definition rgb_white : rgb := (1, 1, 1).
Definition rgb_black : rgb := (0, 0, 0).

Definition default_visualizer : Visualizer :=
  {| kp_size := 2; draw_border := true |}.

(** [np.zeros((1, 4, 2, 3))]: one frame, taller than wide. *)
Definition tall_video : ndvideo rgb :=
  {| frames := 1; height := 4; width := 2; pixels := replicate 8 rgb_black |}.

(** [np.zeros((2, 4, 4, 3))]: two square frames. *)
Definition square_video : ndvideo rgb :=
  {| frames := 2; height := 4; width := 4; pixels := replicate 32 rgb_black |}.

(** [np.zeros((1, 1, 3, 3, 3))]: a batch of one single-frame video. *)
Definition small_batch : ndbatch rgb :=
  {| b_batch := 1; b_frames := 1; b_height := 3; b_width := 3;
     b_pixels := replicate 9 rgb_black |}.

(** * Properties *)

(** ** Python helpers on concrete values *)

Example zfill_42 : zfill (str 42) 8 = "00000042".
Proof. reflexivity. Qed.

Example zfill_negative : zfill (str (-5)) 4 = "-005".
Proof. reflexivity. Qed.

Example format_5f_negative : format_5f (-7 # 2) = "-3.50000".
Proof. reflexivity. Qed.

Example py_mod_sign : py_mod (-1) 100 = Return 99.
Proof. reflexivity. Qed.

(** ** Reasoning about monadic code *)

Lemma bind_Return_inv {S A B} (c : M S A) (k : A -> M S B) s b s' :
  bind c k s = (Return b, s') ->
  exists a s1, c s = (Return a, s1) /\ k a s1 = (Return b, s').
Proof.
  unfold bind. destruct (c s) as [[a|e] s1]; intros H.
  - exists a, s1. split; [reflexivity | exact H].
  - discriminate H.
Qed.

Lemma bind_Raise_inv {S A B} (c : M S A) (k : A -> M S B) s e s' :
  bind c k s = (Raise e, s') ->
  c s = (Raise e, s') \/
  exists a s1, c s = (Return a, s1) /\ k a s1 = (Raise e, s').
Proof.
  unfold bind. destruct (c s) as [[a|e0] s1]; intros H.
  - right. exists a, s1. split; [reflexivity | exact H].
  - left. congruence.
Qed.

Lemma bind_Return {S A B} (c : M S A) (k : A -> M S B) s a s1 :
  c s = (Return a, s1) -> bind c k s = k a s1.
Proof. unfold bind. intros ->. reflexivity. Qed.

Lemma bind_Raise {S A B} (c : M S A) (k : A -> M S B) s e s1 :
  c s = (Raise e, s1) -> bind c k s = (Raise e, s1).
Proof. unfold bind. intros ->. reflexivity. Qed.

Lemma when_Return_inv {S} (c : bool) (body : M S unit) s u s' :
  when c body s = (Return u, s') ->
  (c = true /\ body s = (Return u, s')) \/ (c = false /\ s' = s).
Proof.
  destruct c; simpl; intros H.
  - left. split; [reflexivity | exact H].
  - right. split; [reflexivity|]. unfold ret in H. congruence.
Qed.

Ltac unfold_monad :=
  unfold bind, ret, raise, get, modify, lift, when in *.

(** ** Logger *)

Section LoggerFacts.

Context {mstate ostate video kp output image : Type}.
Variable model_call : mstate -> batch video kp -> option output.
Variable model_call_transfer : mstate -> transfer_batch video kp -> option output.
Variable visualize_reconstruction : batch video kp -> output -> option image.
Variable visualize_transfer_grid : transfer_batch video kp -> output -> option image.

Local Abbreviation Lg := (Logger mstate ostate image).
Local Abbreviation log' :=
  (log model_call model_call_transfer visualize_reconstruction visualize_transfer_grid).
Local Abbreviation run' :=
  (run model_call model_call_transfer visualize_reconstruction visualize_transfer_grid).
Local Abbreviation its_after' :=
  (its_after model_call model_call_transfer visualize_reconstruction visualize_transfer_grid).
Local Abbreviation visualize_rec' := (visualize_rec model_call visualize_reconstruction).
Local Abbreviation visualize_transfer' :=
  (visualize_transfer model_call_transfer visualize_transfer_grid).

(** What each method does to the logger, on return and on raise. *)

Lemma log_scores_effect (names : list string) (s : Lg) :
  match log_scores names s with
  | (Return _, s') =>
      loss_list s <> [] /\
      exists line, s' = set_loss_list [] (set_log_file (log_file s ++ [line]) s)
  | (Raise _, s') => s' = s
  end.
Proof.
  unfold log_scores. unfold_monad.
  destruct (loss_list s) as [|r rest] eqn:Hl; simpl; [reflexivity|].
  destruct (forallb _ rest); simpl; [|reflexivity].
  split; [discriminate|]. eexists. reflexivity.
Qed.

Lemma visualize_rec_effect (inp : batch video kp) (s : Lg) :
  match visualize_rec' inp s with
  | (Return _, s') =>
      exists im, s' = set_disk ((it_name s "-rec.gif", Gif im) :: disk s) s
  | (Raise e, s') => s' = s /\ e = CollaboratorError
  end.
Proof.
  unfold visualize_rec, collaborator, write_file. unfold_monad.
  destruct (model_call (model s) inp) as [out|]; simpl; [|auto].
  destruct (visualize_reconstruction inp out) as [im|]; simpl; [|auto].
  exists im. reflexivity.
Qed.

Lemma visualize_transfer_effect (inp : batch video kp) (s : Lg) :
  match visualize_transfer' inp s with
  | (Return _, s') =>
      exists im, s' = set_disk ((it_name s "-trans.gif", Gif im) :: disk s) s
  | (Raise e, s') => s' = s /\ (e = CollaboratorError \/ e = IndexError)
  end.
Proof.
  unfold visualize_transfer, collaborator, write_file, reverse_batch. unfold_monad.
  destruct (_ <? _)%nat; simpl; [auto|].
  destruct (kp_array inp) as [k|]; simpl.
  - destruct (_ <? _)%nat; simpl; [auto|].
    destruct (model_call_transfer _ _) as [out|]; simpl; [|auto].
    destruct (visualize_transfer_grid _ out) as [im|]; simpl; [|auto].
    exists im. reflexivity.
  - destruct (model_call_transfer _ _) as [out|]; simpl; [|auto].
    destruct (visualize_transfer_grid _ out) as [im|]; simpl; [|auto].
    exists im. reflexivity.
Qed.

Lemma save_cpk_effect (s : Lg) :
  match optimizer s with
  | Some o =>
      save_cpk s =
        (Return tt,
         set_disk ((it_name s "-checkpoint.pth.tar",
                    Checkpoint (<["iter" := VInt (it s)]>
                                  (<["optimizer" := VOptimizer o]>
                                     (<["model" := VModel (model s)]> ∅))))
                     :: disk s) s)
  | None => save_cpk s = (Raise AttributeError, s)
  end.
Proof.
  unfold save_cpk, write_file. unfold_monad.
  destruct (optimizer s); reflexivity.
Qed.

(** The report block of [log] (lines 85-87). *)
Lemma report_block_Return_inv names (inp : batch video kp) (s s' : Lg) u :
  (log_scores names ;;; visualize_rec' inp ;;; visualize_transfer' inp) s
    = (Return u, s') ->
  loss_list s <> [] /\ exists line rec trans, s' = report_state line rec trans s.
Proof.
  intros H.
  apply bind_Return_inv in H as (u1 & sa & Ha & H).
  apply bind_Return_inv in H as (u2 & sb & Hb & H).
  pose proof (log_scores_effect names s) as Ea. rewrite Ha in Ea.
  destruct Ea as [Hne [line ->]].
  pose proof (visualize_rec_effect inp
                (set_loss_list [] (set_log_file (log_file s ++ [line]) s))) as Eb.
  rewrite Hb in Eb. destruct Eb as [rec ->].
  pose proof (visualize_transfer_effect inp
                (set_disk ((it_name (set_loss_list [] (set_log_file (log_file s ++ [line]) s))
                              "-rec.gif", Gif rec) :: disk s)
                   (set_loss_list [] (set_log_file (log_file s ++ [line]) s)))) as Ec.
  simpl in Ec, H. rewrite H in Ec. destruct Ec as [trans ->].
  split; [exact Hne|]. exists line, rec, trans. reflexivity.
Qed.

(** The state reached by a [log] call that returns. *)
Lemma log_Return_inv (it0 : Z) losses (inp : batch video kp) (s s' : Lg) :
  log' it0 losses inp s = (Return tt, s') ->
  let s1 := set_loss_list (loss_list s ++ [map snd losses]) (set_it it0 s) in
  losses <> [] /\ log_freq s <> 0 /\ cpk_freq s <> 0 /\
  exists s2,
    (if it0 mod log_freq s =? 0
     then exists line rec trans, s2 = report_state line rec trans s1
     else s2 = s1) /\
    (if it0 mod cpk_freq s =? 0
     then exists cpk,
         s' = set_disk ((it_name s1 "-checkpoint.pth.tar", Checkpoint cpk) :: disk s2) s2
     else s' = s2).
Proof.
  intros H s1. unfold log in H.
  apply bind_Return_inv in H as (nv & sa & Ha & H).
  destruct losses as [|l0 losses']; [discriminate Ha|].
  injection Ha as <- <-. split; [discriminate|].
  apply bind_Return_inv in H as (u1 & sb & Hb & H). injection Hb as _ <-.
  apply bind_Return_inv in H as (u2 & sc & Hc & H). injection Hc as _ <-.
  apply bind_Return_inv in H as (sd & sd' & Hd & H). injection Hd as <- <-.
  apply bind_Return_inv in H as (r1 & se & He & H).
  unfold lift, py_mod in He. cbn [log_freq set_loss_list set_it] in He.
  destruct (log_freq s =? 0) eqn:Hlf; [discriminate He|]. injection He as <- <-.
  split; [lia|].
  apply bind_Return_inv in H as (u3 & s2 & Hrep & H).
  apply bind_Return_inv in H as (sf & sf' & Hf & H). injection Hf as <- <-.
  apply bind_Return_inv in H as (r2 & sg & Hg & H).
  unfold lift, py_mod in Hg.
  assert (Hs2 : if it0 mod log_freq s =? 0
                then exists line rec trans, s2 = report_state line rec trans s1
                else s2 = s1).
  { apply when_Return_inv in Hrep as [[-> Hrep]|[-> ->]]; [|reflexivity].
    apply report_block_Return_inv in Hrep as [_ Hrep]. exact Hrep. }
  assert (Hcf : cpk_freq s2 = cpk_freq s /\ optimizer s2 = optimizer s
                /\ it_name s2 "-checkpoint.pth.tar" = it_name s1 "-checkpoint.pth.tar").
  { destruct (it0 mod log_freq s =? 0).
    - destruct Hs2 as (line & rec & trans & ->). auto.
    - subst s2. auto. }
  destruct Hcf as (Hcf & Hopt & Hname). rewrite Hcf in Hg.
  destruct (cpk_freq s =? 0) eqn:Hcq; [discriminate Hg|]. injection Hg as <- <-.
  split; [lia|].
  exists s2. split; [exact Hs2|].
  apply when_Return_inv in H as [[-> H]|[-> ->]]; [|reflexivity].
  pose proof (save_cpk_effect s2) as E. destruct (optimizer s2) as [o|].
  - rewrite E in H. injection H as <-. rewrite Hname. eexists. reflexivity.
  - rewrite E in H. discriminate H.
Qed.

Lemma log_scores_Raise_inv (names : list string) (s s' : Lg) e :
  log_scores names s = (Raise e, s') ->
  (loss_list s = [] /\ e = nan_not_iterable) \/
  (loss_list s <> [] /\ e = ragged_mean).
Proof.
  unfold log_scores. unfold_monad.
  destruct (loss_list s) as [|r rest] eqn:Hl; simpl.
  - intros H. left. split; [reflexivity | congruence].
  - destruct (forallb _ rest); simpl; intros H; [discriminate H|].
    right. split; [discriminate | congruence].
Qed.

(** The exceptions a [log] call can raise. *)
Lemma log_Raise_inv (it0 : Z) losses (inp : batch video kp) (s s' : Lg) e :
  log' it0 losses inp s = (Raise e, s') ->
  e = ValueError "not enough values to unpack (expected 2, got 0)"
  \/ e = ZeroDivisionError \/ e = ragged_mean \/ e = CollaboratorError
  \/ e = IndexError \/ e = AttributeError.
Proof.
  intros H. unfold log in H.
  apply bind_Raise_inv in H as [H|(nv & sa & Ha & H)].
  { destruct losses; [|discriminate H]. left. unfold raise in H. congruence. }
  destruct losses as [|l0 losses']; [discriminate Ha|]. injection Ha as <- <-.
  apply bind_Raise_inv in H as [H|(u1 & sb & Hb & H)]; [discriminate H|].
  injection Hb as _ <-.
  apply bind_Raise_inv in H as [H|(u2 & sc & Hc & H)]; [discriminate H|].
  injection Hc as _ <-.
  apply bind_Raise_inv in H as [H|(sd & sd' & Hd & H)]; [discriminate H|].
  injection Hd as <- <-.
  apply bind_Raise_inv in H as [H|(r1 & se & He & H)].
  { unfold lift, py_mod in H. destruct (_ =? 0); [|discriminate H].
    right; left. congruence. }
  unfold lift, py_mod in He. destruct (_ =? 0) in He; [discriminate He|].
  injection He as <- <-.
  apply bind_Raise_inv in H as [H|(u3 & s2 & Hrep & H)].
  { destruct (_ =? 0) in H; [|discriminate H]. simpl in H.
    apply bind_Raise_inv in H as [H|(u4 & sf & Hf & H)].
    - apply log_scores_Raise_inv in H as [[Hnil _]|[_ ->]]; [|tauto].
      simpl in Hnil. destruct (loss_list s); discriminate Hnil.
    - apply bind_Raise_inv in H as [H|(u5 & sg & Hg & H)].
      + pose proof (visualize_rec_effect inp sf) as E. rewrite H in E.
        destruct E as [_ ->]. tauto.
      + pose proof (visualize_transfer_effect inp sg) as E. rewrite H in E.
        destruct E as [_ [-> | ->]]; tauto. }
  apply bind_Raise_inv in H as [H|(sh & sh' & Hh & H)]; [discriminate H|].
  injection Hh as <- <-.
  apply bind_Raise_inv in H as [H|(r2 & si & Hi & H)].
  { unfold lift, py_mod in H. destruct (cpk_freq s2 =? 0); [|discriminate H].
    right; left. congruence. }
  destruct (r2 =? 0); [|discriminate H]. simpl in H.
  pose proof (save_cpk_effect si) as E. destruct (optimizer si).
  - rewrite E in H. discriminate H.
  - rewrite E in H. repeat right. congruence.
Qed.

(** A [log] call that fires no trigger returns. *)
Lemma log_quiet (it0 : Z) losses (inp : batch video kp) (s : Lg) :
  losses <> [] -> log_freq s <> 0 -> cpk_freq s <> 0 ->
  it0 mod log_freq s <> 0 -> it0 mod cpk_freq s <> 0 ->
  log' it0 losses inp s
    = (Return tt, set_loss_list (loss_list s ++ [map snd losses]) (set_it it0 s)).
Proof.
  intros Hl Hlf Hcf Hr Hc.
  apply Z.eqb_neq in Hlf, Hcf, Hr, Hc.
  destruct losses as [|l0 losses']; [contradiction|].
  unfold log, py_mod. unfold_monad. simpl.
  rewrite Hlf, Hr. simpl. rewrite Hcf, Hc. reflexivity.
Qed.

Lemma run_cons (c : log_call video kp) calls (s : Lg) :
  run' (c :: calls) s
  = bind (log' (call_it c) (call_losses c) (call_inp c)) (fun _ => run' calls) s.
Proof. reflexivity. Qed.

Lemma log_keeps_log_freq (it0 : Z) losses (inp : batch video kp) (s s' : Lg) :
  log' it0 losses inp s = (Return tt, s') -> log_freq s' = log_freq s.
Proof.
  intros H. apply log_Return_inv in H as (_ & _ & _ & s2 & H2 & H3).
  destruct (it0 mod log_freq s =? 0);
    [destruct H2 as (line & rec & trans & ->)| subst s2];
    (destruct (it0 mod cpk_freq s =? 0); [destruct H3 as [cpk ->]| subst s']);
    reflexivity.
Qed.

Lemma log_buffer_step (it0 : Z) losses (inp : batch video kp) (s s' : Lg) :
  log' it0 losses inp s = (Return tt, s') ->
  if it0 mod log_freq s =? 0
  then loss_list s' = []
  else loss_list s' = loss_list s ++ [map snd losses].
Proof.
  intros H. apply log_Return_inv in H as (_ & _ & _ & s2 & H2 & H3).
  destruct (it0 mod log_freq s =? 0);
    [destruct H2 as (line & rec & trans & ->)| subst s2];
    (destruct (it0 mod cpk_freq s =? 0); [destruct H3 as [cpk ->]| subst s']);
    reflexivity.
Qed.

Lemma run_buffer_length calls : forall (s s' : Lg),
  run' calls s = (Return tt, s') ->
  length (loss_list s') = calls_since_flush (log_freq s) (length (loss_list s)) calls.
Proof.
  induction calls as [|c calls IH]; intros s s' H.
  - injection H as <-. reflexivity.
  - rewrite run_cons in H. apply bind_Return_inv in H as ([] & s1 & Hlog & H).
    apply IH in H. rewrite H. rewrite (log_keeps_log_freq _ _ _ _ _ Hlog).
    apply log_buffer_step in Hlog. unfold calls_since_flush. simpl.
    destruct (call_it c mod log_freq s =? 0); rewrite Hlog.
    + reflexivity.
    + rewrite length_app. simpl. rewrite Nat.add_1_r. reflexivity.
Qed.

Lemma run_snoc calls (c : log_call video kp) : forall (s s1 s' : Lg),
  run' calls s = (Return tt, s1) ->
  log' (call_it c) (call_losses c) (call_inp c) s1 = (Return tt, s') ->
  run' (calls ++ [c]) s = (Return tt, s').
Proof.
  induction calls as [|c0 calls IH]; intros s s1 s' Hrun Hlog.
  - injection Hrun as <-. simpl. rewrite (bind_Return _ _ _ _ _ Hlog). reflexivity.
  - rewrite run_cons in Hrun. apply bind_Return_inv in Hrun as ([] & s0 & H0 & Hrun).
    change ((c0 :: calls) ++ [c]) with (c0 :: (calls ++ [c])).
    rewrite run_cons, (bind_Return _ _ _ _ _ H0). eapply IH; eassumption.
Qed.

Lemma log_sets_it (it0 : Z) losses (inp : batch video kp) (s s' : Lg) :
  log' it0 losses inp s = (Return tt, s') -> it s' = it0.
Proof.
  intros H. apply log_Return_inv in H as (_ & _ & _ & s2 & H2 & H3).
  destruct (it0 mod log_freq s =? 0);
    [destruct H2 as (line & rec & trans & ->)| subst s2];
    (destruct (it0 mod cpk_freq s =? 0); [destruct H3 as [cpk ->]| subst s']);
    reflexivity.
Qed.

Lemma run_keeps_log_freq calls : forall (s s' : Lg),
  run' calls s = (Return tt, s') -> log_freq s' = log_freq s.
Proof.
  induction calls as [|c calls IH]; intros s s' H.
  - injection H as <-. reflexivity.
  - rewrite run_cons in H. apply bind_Return_inv in H as ([] & s1 & Hlog & H).
    rewrite (IH _ _ H). exact (log_keeps_log_freq _ _ _ _ _ Hlog).
Qed.

Lemma its_after_run calls : forall (s s' : Lg),
  run' calls s = (Return tt, s') -> its_after' calls s = map call_it calls.
Proof.
  induction calls as [|c calls IH]; intros s s' H; [reflexivity|].
  rewrite run_cons in H. apply bind_Return_inv in H as ([] & s1 & Hlog & H).
  simpl. rewrite Hlog, (log_sets_it _ _ _ _ _ Hlog), (IH _ _ H). reflexivity.
Qed.

(** C1, on the code as written: on a logger constructed without an
    optimizer, [save_cpk] raises [AttributeError] when it evaluates
    [self.optimizer.state_dict()], and no checkpoint file is written. *)
Theorem save_cpk_without_optimizer_raises (m : mstate) (dir : string)
    (freq_log freq_cpk fill : Z) (files : list (string * file mstate ostate image)) :
  save_cpk (init m dir None freq_log freq_cpk fill files)
  = (Raise AttributeError, init m dir None freq_log freq_cpk fill files).
Proof. reflexivity. Qed.

(** With an optimizer, the record written by [save_cpk] has exactly the
    keys [model], [optimizer] and [iter]. *)
Lemma save_cpk_with_optimizer_record (s : Lg) (o : ostate) :
  optimizer s = Some o ->
  exists d,
    save_cpk s
    = (Return tt, set_disk ((it_name s "-checkpoint.pth.tar", Checkpoint d) :: disk s) s)
    /\ d !! "model" = Some (VModel (model s))
    /\ d !! "optimizer" = Some (VOptimizer o)
    /\ d !! "iter" = Some (VInt (it s))
    /\ dom d = ({["model"; "optimizer"; "iter"]} : gset string).
Proof.
  intros Ho. pose proof (save_cpk_effect s) as E. rewrite Ho in E.
  eexists. split; [exact E|].
  split; [|split; [|split]].
  - rewrite lookup_insert_ne by done. rewrite lookup_insert_ne by done.
    apply lookup_insert_eq.
  - rewrite lookup_insert_ne by done. apply lookup_insert_eq.
  - apply lookup_insert_eq.
  - rewrite !dom_insert_L, dom_empty_L. set_solver.
Qed.

(** C5, amended: after any history of returning [log] calls, a further
    call that returns leaves the stored counter equal to the iteration it
    was passed (the counters seen over the whole loop are the caller's
    iterations, in order), prints one line exactly when that iteration is
    divisible by [log_freq], and writes the files named after that
    iteration: a checkpoint exactly when it is divisible by [cpk_freq],
    the two visualizations exactly when it is divisible by [log_freq]. *)
Theorem log_counter_is_argument_and_drives_triggers
    calls (c : log_call video kp) (s0 s s' : Lg) :
  run' calls s0 = (Return tt, s) ->
  log' (call_it c) (call_losses c) (call_inp c) s = (Return tt, s') ->
  it s' = call_it c
  /\ its_after' (calls ++ [c]) s0 = map call_it (calls ++ [c])
  /\ (exists line,
        log_file s' = log_file s
                      ++ (if call_it c mod log_freq s =? 0 then [line] else []))
  /\ (exists written,
        disk s' = written ++ disk s
        /\ map fst written
           = (if call_it c mod cpk_freq s =? 0
              then [it_name (set_it (call_it c) s) "-checkpoint.pth.tar"] else [])
             ++ (if call_it c mod log_freq s =? 0
                 then [it_name (set_it (call_it c) s) "-trans.gif";
                       it_name (set_it (call_it c) s) "-rec.gif"]
                 else [])).
Proof.
  intros Hrun Hlog. split; [exact (log_sets_it _ _ _ _ _ Hlog)|].
  split; [exact (its_after_run _ _ _ (run_snoc _ _ _ _ _ Hrun Hlog))|].
  apply log_Return_inv in Hlog as (_ & _ & _ & s2 & H2 & H3).
  destruct (call_it c mod log_freq s =? 0);
    [destruct H2 as (line & rec & trans & ->)| subst s2];
    (destruct (call_it c mod cpk_freq s =? 0); [destruct H3 as [cpk ->]| subst s']).
  - split; [exists line; reflexivity|]. eexists [_; _; _]. split; reflexivity.
  - split; [exists line; reflexivity|]. eexists [_; _]. split; reflexivity.
  - split; [exists ""; simpl; rewrite app_nil_r; reflexivity|].
    eexists [_]. split; reflexivity.
  - split; [exists ""; simpl; rewrite app_nil_r; reflexivity|].
    exists []. split; reflexivity.
Qed.

(** C6: on one logger, after any history of returning [log] calls since
    construction and one more returning call, the loss buffer holds as many
    records as there were calls since the last flush; the last call left
    it empty when its iteration is divisible by the report interval and
    appended exactly its own record otherwise. *)
Theorem loss_buffer_counts_calls_since_flush
    calls (c : log_call video kp) (m : mstate) (dir : string) (o : option ostate)
    (freq_log freq_cpk fill : Z) (files : list (string * file mstate ostate image))
    (s s' : Lg) :
  run' calls (init m dir o freq_log freq_cpk fill files) = (Return tt, s) ->
  log' (call_it c) (call_losses c) (call_inp c) s = (Return tt, s') ->
  length (loss_list s) = calls_since_flush freq_log 0 calls
  /\ length (loss_list s') = calls_since_flush freq_log 0 (calls ++ [c])
  /\ (if call_it c mod freq_log =? 0
      then loss_list s' = []
      else loss_list s' = loss_list s ++ [map snd (call_losses c)]).
Proof.
  intros Hrun Hlog.
  pose proof (run_buffer_length _ _ _ Hrun) as H1.
  pose proof (run_buffer_length _ _ _ (run_snoc _ _ _ _ _ Hrun Hlog)) as H2.
  simpl in H1, H2. split; [exact H1|]. split; [exact H2|].
  apply log_buffer_step in Hlog.
  rewrite (run_keeps_log_freq _ _ _ Hrun) in Hlog. exact Hlog.
Qed.

(** C7: with report interval 2, logging [("a",1.0),("b",3.0)] at iteration
    1 and [("a",3.0),("b",5.0)] at iteration 2 computes the column means
    2.0 and 4.0 over the two buffered records and prints them, paired with
    the names in order, on the line for iteration 2 - whatever the
    visualization that follows does. *)
Theorem report_means_example (m : mstate) (dir : string) (o : option ostate)
    (files : list (string * file mstate ostate image)) (inp1 inp2 : batch video kp) :
  let s0 : Lg := init m dir o 2 1000 8 files in
  let r1 := log' 1 [("a", 1%Q); ("b", 3%Q)] inp1 s0 in
  let r2 := log' 2 [("a", 3%Q); ("b", 5%Q)] inp2 (snd r1) in
  fst r1 = Return tt
  /\ log_file (snd r1) = []
  /\ np_mean_axis0 (loss_list (snd r1) ++ [[3%Q; 5%Q]]) = Return (Means [2%Q; 4%Q])
  /\ log_file (snd r2) = ["00000002) a - 2.00000; b - 4.00000"].
Proof.
  intros s0 r1 r2.
  assert (H1 : r1 = (Return tt, set_loss_list [[1%Q; 3%Q]] (set_it 1 s0)))
    by reflexivity.
  split; [rewrite H1; reflexivity|].
  split; [rewrite H1; reflexivity|].
  split; [rewrite H1; reflexivity|].
  subst r2. rewrite H1. clear H1 r1.
  unfold log, visualize_rec, visualize_transfer, collaborator, write_file,
    reverse_batch, py_mod. unfold_monad. simpl.
  destruct (model_call m inp2) as [out|]; simpl; [|reflexivity].
  destruct (visualize_reconstruction inp2 out) as [im|]; simpl; [|reflexivity].
  destruct (_ <? _)%nat; simpl; [reflexivity|].
  destruct (kp_array inp2) as [k|]; simpl.
  - destruct (_ <? _)%nat; simpl; [reflexivity|].
    destruct (model_call_transfer _ _) as [out'|]; simpl; [|reflexivity].
    destruct (visualize_transfer_grid _ out') as [im'|]; reflexivity.
  - destruct (model_call_transfer _ _) as [out'|]; simpl; [|reflexivity].
    destruct (visualize_transfer_grid _ out') as [im'|]; reflexivity.
Qed.

(** C8: on a logger that holds an optimizer, [save_cpk] returns, and
    [load_cpk] on the file it wrote - into any model, with or without an
    optimizer passed - returns the saved iteration number and leaves the
    model state (and the state of the optimizer that was passed) equal to
    the state saved. *)
Theorem checkpoint_roundtrip (s : Lg) (o : ostate) (m' : mstate) (o' : option ostate) :
  optimizer s = Some o ->
  exists s',
    save_cpk s = (Return tt, s')
    /\ load_cpk (disk s') (it_name s "-checkpoint.pth.tar") (m', o')
       = (Return (VInt (it s)),
          (model s, match o' with Some _ => Some o | None => None end)).
Proof.
  intros Ho. pose proof (save_cpk_effect s) as E. rewrite Ho in E.
  eexists. split; [exact E|].
  unfold load_cpk. unfold_monad. simpl. rewrite String.eqb_refl.
  rewrite (lookup_insert_ne _ "iter" "model") by done.
  rewrite (lookup_insert_ne _ "optimizer" "model") by done.
  rewrite lookup_insert_eq. simpl.
  destruct o' as [o0|]; simpl.
  - rewrite (lookup_insert_ne _ "iter" "optimizer") by done.
    rewrite lookup_insert_eq. simpl. rewrite lookup_insert_eq. reflexivity.
  - rewrite lookup_insert_eq. reflexivity.
Qed.

(** C10: no [log] call, from any logger state and with any arguments,
    ends in the exception of the empty-buffer mean (zipping the names with
    the scalar nan), because the record of the call is appended before the
    report test; calling [log_scores] directly on a fresh logger does end
    in it. *)
Theorem log_never_reports_empty_buffer (it0 : Z) (losses : list (string * Q))
    (inp : batch video kp) (s : Lg) (names : list string) :
  fst (log' it0 losses inp s) <> Raise nan_not_iterable
  /\ fst (log_scores names (set_loss_list [] s)) = Raise nan_not_iterable.
Proof.
  split; [|reflexivity].
  destruct (log' it0 losses inp s) as [[[]|e] s'] eqn:H; simpl; [discriminate|].
  apply log_Raise_inv in H.
  intros He. injection He as ->. unfold nan_not_iterable, ragged_mean in H.
  repeat destruct H as [H|H]; discriminate H.
Qed.

End LoggerFacts.

(** *** Concrete runs *)

(** C5 as stated fails: on a logger with the default intervals, [log] at
    iteration 5 and then at iteration 3 both return, and the stored
    counter goes from 5 down to 3. *)
Lemma it_counter_decreases :
  demo_its_after [demo_call 5; demo_call 3] default_logger = [5; 3]
  /\ it (snd (demo_log 5 [("a", 1%Q)] demo_batch default_logger)) = 5
  /\ it (snd (demo_log 3 [("a", 1%Q)] demo_batch
                (snd (demo_log 5 [("a", 1%Q)] demo_batch default_logger)))) = 3
  /\ ~ (5 <= 3).
Proof.
  split; [vm_compute; reflexivity|]. split; [vm_compute; reflexivity|].
  split; [vm_compute; reflexivity|]. lia.
Qed.

(** The amended C5 on a logger with [log_freq=2], [cpk_freq=4]: three
    calls, then the call at iteration 4 that fires both triggers. *)
Lemma log_counter_is_argument_and_drives_triggers_witness :
  demo_run [demo_call 1; demo_call 2; demo_call 3] frequent_logger
  = (Return tt, snd (demo_run [demo_call 1; demo_call 2; demo_call 3] frequent_logger))
  /\ it (snd (demo_run [demo_call 1; demo_call 2; demo_call 3; demo_call 4]
                frequent_logger)) = 4
  /\ demo_its_after [demo_call 1; demo_call 2; demo_call 3; demo_call 4] frequent_logger
     = [1; 2; 3; 4].
Proof.
  assert (H1 : demo_run [demo_call 1; demo_call 2; demo_call 3] frequent_logger
               = (Return tt,
                  snd (demo_run [demo_call 1; demo_call 2; demo_call 3] frequent_logger)))
    by (vm_compute; reflexivity).
  assert (H2 : demo_log (call_it (demo_call 4)) (call_losses (demo_call 4))
                 (call_inp (demo_call 4))
                 (snd (demo_run [demo_call 1; demo_call 2; demo_call 3] frequent_logger))
               = (Return tt,
                  snd (demo_run [demo_call 1; demo_call 2; demo_call 3; demo_call 4]
                         frequent_logger)))
    by (vm_compute; reflexivity).
  split; [exact H1|].
  destruct (log_counter_is_argument_and_drives_triggers
              demo_model demo_model_transfer demo_reconstruction demo_transfer_grid
              [demo_call 1; demo_call 2; demo_call 3] (demo_call 4) frequent_logger
              _ _ H1 H2) as (Hit & Hits & _).
  split; [exact Hit | exact Hits].
Defined.

(** C6 on the same run: one record pending after iteration 3, none after
    iteration 4. *)
Lemma loss_buffer_counts_calls_since_flush_witness :
  demo_run [demo_call 1; demo_call 2; demo_call 3] frequent_logger
  = (Return tt, snd (demo_run [demo_call 1; demo_call 2; demo_call 3] frequent_logger))
  /\ length (loss_list (snd (demo_run [demo_call 1; demo_call 2; demo_call 3]
                               frequent_logger)))
     = calls_since_flush 2 0 [demo_call 1; demo_call 2; demo_call 3]
  /\ length (loss_list (snd (demo_run [demo_call 1; demo_call 2; demo_call 3; demo_call 4]
                               frequent_logger)))
     = calls_since_flush 2 0 [demo_call 1; demo_call 2; demo_call 3; demo_call 4].
Proof.
  assert (H1 : demo_run [demo_call 1; demo_call 2; demo_call 3] frequent_logger
               = (Return tt,
                  snd (demo_run [demo_call 1; demo_call 2; demo_call 3] frequent_logger)))
    by (vm_compute; reflexivity).
  assert (H2 : demo_log (call_it (demo_call 4)) (call_losses (demo_call 4))
                 (call_inp (demo_call 4))
                 (snd (demo_run [demo_call 1; demo_call 2; demo_call 3] frequent_logger))
               = (Return tt,
                  snd (demo_run [demo_call 1; demo_call 2; demo_call 3; demo_call 4]
                         frequent_logger)))
    by (vm_compute; reflexivity).
  split; [exact H1|].
  destruct (loss_buffer_counts_calls_since_flush
              demo_model demo_model_transfer demo_reconstruction demo_transfer_grid
              [demo_call 1; demo_call 2; demo_call 3] (demo_call 4)
              tt "log" (Some tt) 2 4 8 [] _ _ H1 H2) as (Hs & Hs' & _).
  split; [exact Hs | exact Hs'].
Defined.

(** C8 on a freshly constructed logger that holds an optimizer. *)
Lemma checkpoint_roundtrip_witness :
  optimizer frequent_logger = Some tt
  /\ exists s',
      save_cpk frequent_logger = (Return tt, s')
      /\ load_cpk (disk s') (it_name frequent_logger "-checkpoint.pth.tar") (tt, Some tt)
         = (Return (VInt 0), (tt, Some tt)).
Proof.
  assert (H : optimizer frequent_logger = Some tt) by reflexivity.
  split; [exact H|].
  exact (checkpoint_roundtrip frequent_logger tt tt (Some tt) H).
Defined.

(** ** Visualizer *)

(** *** Loops *)

Lemma for_each_invariant {S A} (I : S -> Prop) (body : A -> M S unit) (l : list A) :
  (forall x s, In x l -> I s -> I (snd (body x s))) ->
  forall s, I s -> I (snd (for_each l body s)).
Proof.
  induction l as [|x l IH]; intros Hbody s Hs; [exact Hs|].
  simpl. unfold bind.
  pose proof (Hbody x s (or_introl eq_refl) Hs) as Hx.
  destruct (body x s) as [[u|e] s1]; simpl in Hx |- *; [|exact Hx].
  apply IH; [|exact Hx]. intros y s2 Hy. apply Hbody. right. exact Hy.
Qed.

Lemma for_each_returns {S A} (I : S -> Prop) (body : A -> M S unit) (l : list A) :
  (forall x s, In x l -> I s -> exists s', body x s = (Return tt, s') /\ I s') ->
  forall s, I s -> exists s', for_each l body s = (Return tt, s') /\ I s'.
Proof.
  induction l as [|x l IH]; intros Hbody s Hs.
  - exists s. split; [reflexivity | exact Hs].
  - destruct (Hbody x s (or_introl eq_refl) Hs) as (s1 & Hx & Hs1).
    simpl. rewrite (bind_Return _ _ _ _ _ Hx).
    apply IH; [|exact Hs1]. intros y s2 Hy. apply Hbody. right. exact Hy.
Qed.

(** *** Index arithmetic *)

Lemma norm_index_bound (n : nat) (k : Z) (m : nat) :
  norm_index n k = Return m -> (m < n)%nat.
Proof.
  unfold norm_index.
  destruct ((0 <=? k) && (k <? Z.of_nat n)) eqn:E1.
  - intros [= <-]. apply andb_prop in E1 as [H1 H2]. lia.
  - destruct ((- Z.of_nat n <=? k) && (k <? 0)) eqn:E2; [|discriminate].
    intros [= <-]. apply andb_prop in E2 as [H1 H2]. lia.
Qed.

Lemma norm_index_in_range (n : nat) (k : Z) :
  0 <= k < Z.of_nat n -> norm_index n k = Return (Z.to_nat k).
Proof.
  intros H. unfold norm_index.
  replace ((0 <=? k) && (k <? Z.of_nat n)) with true; [reflexivity|].
  symmetry. apply andb_true_intro. split; lia.
Qed.

Lemma norm_index_out_of_range (n : nat) (k : Z) :
  Z.of_nat n <= k -> norm_index n k = Raise IndexError.
Proof.
  intros H. unfold norm_index.
  replace (k <? Z.of_nat n) with false by lia.
  replace (k <? 0) with false by lia.
  rewrite !andb_false_r. reflexivity.
Qed.

(** Pixels of different frames sit at different positions of the buffer. *)
Lemma frame_offsets_disjoint (H W i j y x y' x' : nat) :
  i <> j -> (y < H)%nat -> (x < W)%nat -> (y' < H)%nat -> (x' < W)%nat ->
  ((i * H + y) * W + x)%nat <> ((j * H + y') * W + x')%nat.
Proof.
  intros Hij Hy Hx Hy' Hx' E.
  assert (E1 : (i * H + y = j * H + y')%nat) by nia.
  assert (E2 : i = j) by nia.
  contradiction.
Qed.

Lemma fold_insert_length {A} (w : A) (offs : list nat) : forall (d : list A),
  length (fold_left (fun d off => <[off := w]> d) offs d) = length d.
Proof.
  induction offs as [|o offs IH]; intros d; [reflexivity|].
  simpl. rewrite IH. apply length_insert.
Qed.

Lemma fold_insert_lookup_other {A} (w : A) (offs : list nat) (k : nat) :
  ~ In k offs ->
  forall (d : list A), fold_left (fun d off => <[off := w]> d) offs d !! k = d !! k.
Proof.
  induction offs as [|o offs IH]; intros Hk d; [reflexivity|].
  simpl. rewrite IH.
  - apply list_lookup_insert_ne. intros ->. apply Hk. left. reflexivity.
  - intros Hin. apply Hk. right. exact Hin.
Qed.

Lemma traverse_Forall {A B} (f : A -> outcome B) (P : B -> Prop) (l : list A) :
  (forall x y, In x l -> f x = Return y -> P y) ->
  forall ys, traverse f l = Return ys -> Forall P ys.
Proof.
  induction l as [|x l IH]; intros Hf ys H.
  - injection H as <-. constructor.
  - simpl in H. destruct (f x) as [y|e] eqn:Hx; [|discriminate H].
    destruct (traverse f l) as [ys'|e] eqn:Hl; [|discriminate H].
    injection H as <-. constructor.
    + eapply Hf; [left; reflexivity | exact Hx].
    + apply IH; [|reflexivity]. intros x' y' Hin. apply Hf. right. exact Hin.
Qed.

Lemma traverse_total {A B} (f : A -> outcome B) (l : list A) :
  (forall x, In x l -> exists y, f x = Return y) ->
  exists ys, traverse f l = Return ys.
Proof.
  induction l as [|x l IH]; intros Hf; [exists []; reflexivity|].
  destruct (Hf x (or_introl eq_refl)) as [y Hy].
  destruct IH as [ys Hys]; [intros x' Hin; apply Hf; right; exact Hin|].
  exists (y :: ys). simpl. rewrite Hy, Hys. reflexivity.
Qed.

Lemma traverse_raises {A B} (f : A -> outcome B) (e : exn) (l : list A) :
  (forall x e', f x = Raise e' -> e' = e) ->
  (exists x, In x l /\ f x = Raise e) ->
  traverse f l = Raise e.
Proof.
  intros Hf. induction l as [|x l IH]; intros (x0 & Hin & Hx0); [destruct Hin|].
  simpl. destruct (f x) as [y|e'] eqn:Hx.
  - destruct Hin as [->|Hin]; [congruence|].
    rewrite IH; [reflexivity|]. exists x0. split; assumption.
  - rewrite (Hf _ _ Hx). reflexivity.
Qed.

Section VisualizerFacts.

Context {pixel : Type}.
Variable white : pixel.
Variable circle : Q -> Q -> Q -> list nat -> outcome (list (Z * Z)).

Local Abbreviation heap := (list (ndvideo pixel)).

Lemma point_offset_Return (a : ndvideo pixel) (i : nat) p off :
  point_offset a i p = Return off ->
  exists y x, (y < height a)%nat /\ (x < width a)%nat /\ off = offset a i y x.
Proof.
  unfold point_offset.
  destruct (norm_index (height a) (fst p)) as [y|] eqn:Hy; [|discriminate].
  destruct (norm_index (width a) (snd p)) as [x|] eqn:Hx; [|discriminate].
  intros [= <-]. exists y, x.
  split; [exact (norm_index_bound _ _ _ Hy)|].
  split; [exact (norm_index_bound _ _ _ Hx) | reflexivity].
Qed.

Lemma point_offset_Raise (a : ndvideo pixel) (i : nat) p e :
  point_offset a i p = Raise e -> e = IndexError.
Proof.
  unfold point_offset, norm_index.
  repeat (destruct (_ && _)); congruence.
Qed.

Lemma point_offset_valid (a : ndvideo pixel) (i : nat) p :
  valid_point a p -> exists off, point_offset a i p = Return off.
Proof.
  intros [Hy Hx]. unfold point_offset, norm_index.
  destruct ((0 <=? fst p) && (fst p <? Z.of_nat (height a))) eqn:E1;
    [|replace ((- Z.of_nat (height a) <=? fst p) && (fst p <? 0)) with true
        by (symmetry; apply andb_true_intro; split;
            [|apply andb_false_iff in E1 as [E1|E1]]; lia)];
    (destruct ((0 <=? snd p) && (snd p <? Z.of_nat (width a))) eqn:E2;
     [|replace ((- Z.of_nat (width a) <=? snd p) && (snd p <? 0)) with true
         by (symmetry; apply andb_true_intro; split;
             [|apply andb_false_iff in E2 as [E2|E2]]; lia)]);
    eexists; reflexivity.
Qed.

(** What line 103 does to the heap. *)
Lemma assign_disk_effect (r i : nat) (pts : list (Z * Z)) (hx : heap) (a : ndvideo pixel) :
  hx !! r = Some a ->
  match traverse (point_offset a i) pts with
  | Return offs =>
      assign_disk white r i pts hx
      = (Return tt,
         <[r := set_pixels (fold_left (fun d off => <[off := white]> d) offs (pixels a)) a]> hx)
  | Raise e => assign_disk white r i pts hx = (Raise e, hx)
  end.
Proof.
  intros Hr.
  assert (Hd : deref r hx = (Return a, hx)) by (unfold deref; rewrite Hr; reflexivity).
  unfold assign_disk. rewrite (bind_Return _ _ _ _ _ Hd).
  unfold bind, lift, store, modify.
  destruct (traverse (point_offset a i) pts); reflexivity.
Qed.

Lemma drawing_start (h : heap) (src : ndvideo pixel) keep :
  drawing h src keep (h ++ [src]).
Proof.
  split; [rewrite length_app; simpl; lia|].
  split; [intros l Hl; apply lookup_app_l; exact Hl|].
  exists src. split.
  - rewrite lookup_app_r by lia. rewrite Nat.sub_diag. reflexivity.
  - split; [repeat split|]. intros i _ y x _ _. reflexivity.
Qed.

Lemma assign_disk_drawing (h : heap) (src : ndvideo pixel) (keep : nat -> Prop)
    (j : nat) (pts : list (Z * Z)) (hx : heap) :
  ~ keep j -> drawing h src keep hx ->
  drawing h src keep (snd (assign_disk white (length h) j pts hx)).
Proof.
  intros Hj (Hlen & Hold & res & Hres & Hshape & Hkeep).
  pose proof (assign_disk_effect (length h) j pts hx res Hres) as E.
  destruct (traverse (point_offset res j) pts) as [offs|e] eqn:Ht;
    rewrite E; simpl; [|repeat split; eauto].
  pose proof (traverse_Forall _ _ _
                (fun p off _ Hp => point_offset_Return res j p off Hp) _ Ht) as Hoffs.
  destruct Hshape as (Hf & Hh & Hw & Hl).
  split; [rewrite length_insert; exact Hlen|].
  split; [intros l Hl'; rewrite list_lookup_insert_ne by lia; apply Hold; exact Hl'|].
  eexists. split; [apply list_lookup_insert_eq; lia|].
  split.
  - repeat split; simpl; try assumption. rewrite fold_insert_length. exact Hl.
  - intros i Hi y x Hy Hx.
    rewrite <- (Hkeep i Hi y x Hy Hx). unfold pixel_at, offset. simpl.
    apply fold_insert_lookup_other. intros Hin.
    rewrite Forall_forall in Hoffs. apply list_elem_of_In in Hin.
    destruct (Hoffs _ Hin) as (y' & x' & Hy' & Hx' & E').
    unfold offset in E'. rewrite Hh, Hw in *.
    apply (frame_offsets_disjoint (height src) (width src) i j y x y' x');
      try assumption. intros ->. contradiction.
Qed.

Lemma draw_keypoint_drawing (self : Visualizer) (h : heap) (src : ndvideo pixel)
    (keep : nat -> Prop) (j : nat) (kp : Q * Q) (hx : heap) :
  ~ keep j -> drawing h src keep hx ->
  drawing h src keep (snd (draw_keypoint white circle self (length h) j kp hx)).
Proof.
  intros Hj Hd. pose proof Hd as (_ & _ & res & Hres & _).
  assert (Hderef : deref (length h) hx = (Return res, hx))
    by (unfold deref; rewrite Hres; reflexivity).
  unfold draw_keypoint. rewrite (bind_Return _ _ _ _ _ Hderef).
  unfold bind at 1. unfold lift.
  destruct (circle _ _ _ _) as [pts|e]; [|exact Hd].
  apply assign_disk_drawing; assumption.
Qed.

Lemma draw_frame_drawing (self : Visualizer) (h : heap) (src : ndvideo pixel)
    (kp_array : list (list (Q * Q))) (j : nat) (hx : heap) :
  drawing h src (fun i => kp_array !! i = Some []) hx ->
  drawing h src (fun i => kp_array !! i = Some [])
    (snd (draw_frame white circle self kp_array (length h) j hx)).
Proof.
  intros Hd. unfold draw_frame, item, bind, lift.
  destruct (kp_array !! j) as [kps|] eqn:Hk; [|exact Hd].
  destruct kps as [|kp kps]; [exact Hd|].
  apply (for_each_invariant (drawing h src (fun i => kp_array !! i = Some [])));
    [|exact Hd].
  intros kp' s _ Hs. apply draw_keypoint_drawing; [|exact Hs].
  rewrite Hk. discriminate.
Qed.

(** The loop of [draw_video_with_kp], seen from its caller. *)
Lemma draw_video_with_kp_unfold (self : Visualizer) (h : heap) (v : loc)
    (src : ndvideo pixel) (kp_array : list (list (Q * Q))) :
  h !! v = Some src ->
  draw_video_with_kp white circle self v kp_array h
  = match for_each (seq 0 (frames src)) (draw_frame white circle self kp_array (length h))
            (h ++ [src]) with
    | (Return _, h') => (Return (length h), h')
    | (Raise e, h') => (Raise e, h')
    end.
Proof.
  intros Hv. unfold draw_video_with_kp.
  assert (Hderef : deref v h = (Return src, h))
    by (unfold deref; rewrite Hv; reflexivity).
  rewrite (bind_Return _ _ _ _ _ Hderef).
  unfold bind, alloc, ret.
  destruct (for_each _ _ _) as [[u|e] h']; reflexivity.
Qed.

Lemma valid_point_same_shape (a b : ndvideo pixel) p :
  same_shape a b -> valid_point a p -> valid_point b p.
Proof. intros (_ & Hh & Hw & _). unfold valid_point. rewrite Hh, Hw. tauto. Qed.

Lemma draw_keypoint_returns (self : Visualizer) (h : heap) (src : ndvideo pixel)
    (keep : nat -> Prop) (j : nat) (kp : Q * Q) (hx : heap) (pts : list (Z * Z)) :
  ~ keep j -> drawing h src keep hx ->
  circle (snd kp) (fst kp) (kp_size self) [height src] = Return pts ->
  Forall (valid_point src) pts ->
  exists hx', draw_keypoint white circle self (length h) j kp hx = (Return tt, hx')
              /\ drawing h src keep hx'.
Proof.
  intros Hj Hd Hc Hpts. pose proof Hd as (_ & _ & res & Hres & Hshape & _).
  pose proof (assign_disk_drawing h src keep j pts hx Hj Hd) as Hd'.
  pose proof (assign_disk_effect (length h) j pts hx res Hres) as E.
  destruct (traverse_total (point_offset res j) pts) as [offs Ht].
  { intros p Hp. apply point_offset_valid.
    apply (valid_point_same_shape src res p Hshape).
    rewrite Forall_forall in Hpts. apply Hpts. apply list_elem_of_In. exact Hp. }
  rewrite Ht in E.
  assert (Hderef : deref (length h) hx = (Return res, hx))
    by (unfold deref; rewrite Hres; reflexivity).
  unfold draw_keypoint. rewrite (bind_Return _ _ _ _ _ Hderef).
  destruct Hshape as (_ & Hh & _). simpl. rewrite Hh, Hc.
  unfold bind at 1. unfold lift. rewrite E in Hd' |- *.
  eexists. split; [reflexivity | exact Hd'].
Qed.

Lemma draw_frame_returns (self : Visualizer) (h : heap) (src : ndvideo pixel)
    (kp_array : list (list (Q * Q))) (j : nat) (hx : heap) :
  (j < length kp_array)%nat ->
  (forall i kps kp, kp_array !! i = Some kps -> In kp kps ->
     exists pts, circle (snd kp) (fst kp) (kp_size self) [height src] = Return pts
                 /\ Forall (valid_point src) pts) ->
  drawing h src (fun _ => False) hx ->
  exists hx', draw_frame white circle self kp_array (length h) j hx = (Return tt, hx')
              /\ drawing h src (fun _ => False) hx'.
Proof.
  intros Hj Hcircle Hd.
  destruct (kp_array !! j) as [kps|] eqn:Hk;
    [|apply lookup_ge_None in Hk; lia].
  unfold draw_frame, item. rewrite Hk. unfold bind at 1. unfold lift.
  apply (for_each_returns (drawing h src (fun _ => False))); [|exact Hd].
  intros kp s Hin Hs.
  destruct (Hcircle j kps kp Hk Hin) as (pts & Hc & Hpts).
  eapply draw_keypoint_returns; eauto.
Qed.

(** The heap after the call, returned or raised, and the reference
    returned. *)
Lemma draw_video_with_kp_drawing (self : Visualizer) (h : heap) (v : loc)
    (src : ndvideo pixel) (kp_array : list (list (Q * Q))) :
  h !! v = Some src ->
  drawing h src (fun i => kp_array !! i = Some [])
    (snd (draw_video_with_kp white circle self v kp_array h))
  /\ forall out h',
      draw_video_with_kp white circle self v kp_array h = (Return out, h') ->
      out = length h.
Proof.
  intros Hv. rewrite (draw_video_with_kp_unfold self h v src kp_array Hv).
  pose proof (for_each_invariant
                (drawing h src (fun i => kp_array !! i = Some []))
                (draw_frame white circle self kp_array (length h))
                (seq 0 (frames src))
                (fun j s _ Hs => draw_frame_drawing self h src kp_array j s Hs)
                (h ++ [src]) (drawing_start h src _)) as Hd.
  destruct (for_each _ _ _) as [[u|e] h1]; simpl in Hd |- *.
  - split; [exact Hd|]. intros out h' [= <- _]. reflexivity.
  - split; [exact Hd|]. intros out h' E. discriminate E.
Qed.

(** Rendering returns when every frame has a keypoint list and the
    rasterizer yields only index pairs valid for the frame. *)
Lemma draw_video_with_kp_returns (self : Visualizer) (h : heap) (v : loc)
    (src : ndvideo pixel) (kp_array : list (list (Q * Q))) :
  h !! v = Some src ->
  (frames src <= length kp_array)%nat ->
  (forall i kps kp, kp_array !! i = Some kps -> In kp kps ->
     exists pts, circle (snd kp) (fst kp) (kp_size self) [height src] = Return pts
                 /\ Forall (valid_point src) pts) ->
  exists out h', draw_video_with_kp white circle self v kp_array h = (Return out, h').
Proof.
  intros Hv Hlen Hcircle.
  rewrite (draw_video_with_kp_unfold self h v src kp_array Hv).
  destruct (for_each_returns (drawing h src (fun _ => False))
              (draw_frame white circle self kp_array (length h))
              (seq 0 (frames src))) with (s := h ++ [src]) as (h1 & E & _).
  - intros j s Hin Hs. apply draw_frame_returns; [|exact Hcircle|exact Hs].
    apply in_seq in Hin. lia.
  - apply drawing_start.
  - rewrite E. eauto.
Qed.

(** C3, amended: on a heap where [v] refers to the video [src],
    [draw_video_with_kp] leaves every array that was on the heap as it was,
    whether it returns or raises; when it returns, the result is a
    reference that was not on the heap, to an array of the shape and dtype
    of [src] whose frames with an empty keypoint list equal those of [src]
    pixel for pixel; and it does return when [kp_array] has an entry for
    every frame and the rasterizer yields only index pairs valid for the
    frame. *)
Theorem draw_video_with_kp_frame_effect (self : Visualizer) (h : heap) (v : loc)
    (src : ndvideo pixel) (kp_array : list (list (Q * Q))) :
  h !! v = Some src ->
  (forall l, (l < length h)%nat ->
     snd (draw_video_with_kp white circle self v kp_array h) !! l = h !! l)
  /\ (forall out h',
        draw_video_with_kp white circle self v kp_array h = (Return out, h') ->
        h !! out = None
        /\ exists res, h' !! out = Some res /\ same_shape src res
             /\ forall i, kp_array !! i = Some [] -> same_frame src res i)
  /\ ((frames src <= length kp_array)%nat ->
      (forall i kps kp, kp_array !! i = Some kps -> In kp kps ->
         exists pts, circle (snd kp) (fst kp) (kp_size self) [height src] = Return pts
                     /\ Forall (valid_point src) pts) ->
      exists out h', draw_video_with_kp white circle self v kp_array h = (Return out, h')).
Proof.
  intros Hv.
  destruct (draw_video_with_kp_drawing self h v src kp_array Hv)
    as ((Hlen & Hold & res & Hres & Hshape & Hkeep) & Hout).
  split; [exact Hold|]. split.
  - intros out h' E. rewrite E in Hres. simpl in Hres.
    rewrite (Hout out h' E). split; [apply lookup_ge_None; lia|].
    exists res. auto.
  - apply draw_video_with_kp_returns. exact Hv.
Qed.

End VisualizerFacts.

(** *** The rasterizer model *)

Lemma in_zrange (lo hi k : Z) : In k (zrange lo hi) -> lo <= k <= hi.
Proof.
  unfold zrange. intros H. apply in_map_iff in H as (n & <- & Hn).
  apply in_seq in Hn. lia.
Qed.

(** With a one-element [shape], both coordinates are clipped to it. *)
Lemma skimage_circle_clipped (r c radius : Q) (s0 : nat) :
  exists pts,
    skimage_circle r c radius [s0] = Return pts
    /\ Forall (fun p => 0 <= fst p < Z.of_nat s0 /\ 0 <= snd p < Z.of_nat s0) pts.
Proof.
  unfold skimage_circle. eexists. split; [reflexivity|].
  apply Forall_forall. intros [y x] Hin. apply list_elem_of_In in Hin.
  apply in_flat_map in Hin as (y' & Hy & Hin).
  apply in_flat_map in Hin as (x' & Hx & Hin).
  destruct (if Qeq_bool radius 0 then false else _); [|destruct Hin].
  destruct Hin as [[= <- <-]|[]].
  apply in_zrange in Hy, Hx. simpl. lia.
Qed.

Lemma skimage_circle_valid_on_wide_frames {pixel} (a : ndvideo pixel) (r c radius : Q) :
  (height a <= width a)%nat ->
  exists pts, skimage_circle r c radius [height a] = Return pts
              /\ Forall (valid_point a) pts.
Proof.
  intros Hhw. destruct (skimage_circle_clipped r c radius (height a)) as (pts & E & Hpts).
  exists pts. split; [exact E|].
  eapply Forall_impl; [exact Hpts|]. intros p [Hy Hx]. unfold valid_point. lia.
Qed.

(** With the modelled rasterizer, rendering returns on every video whose
    frames are at least as wide as high, given a keypoint list per frame. *)
Lemma draw_video_with_kp_returns_on_wide_frames {pixel} (white : pixel)
    (self : Visualizer) (h : list (ndvideo pixel)) (v : loc) (src : ndvideo pixel)
    (kp_array : list (list (Q * Q))) :
  h !! v = Some src -> (frames src <= length kp_array)%nat ->
  (height src <= width src)%nat ->
  exists out h',
    draw_video_with_kp white skimage_circle self v kp_array h = (Return out, h').
Proof.
  intros Hv Hlen Hhw.
  apply (draw_video_with_kp_returns white skimage_circle self h v src kp_array Hv Hlen).
  intros i kps kp _ _. apply skimage_circle_valid_on_wide_frames. exact Hhw.
Qed.

(** Whatever the rasterizer, it is only told the height: when it yields a
    column index at or beyond the width for the first keypoint of the
    first frame, the assignment of line 103 raises. *)
Lemma draw_video_with_kp_column_overflow {pixel} (white : pixel)
    (circle : Q -> Q -> Q -> list nat -> outcome (list (Z * Z)))
    (self : Visualizer) (h : list (ndvideo pixel)) (v : loc) (src : ndvideo pixel)
    (kp : Q * Q) (kps : list (Q * Q)) (rest : list (list (Q * Q)))
    (pts : list (Z * Z)) (p : Z * Z) :
  h !! v = Some src -> (0 < frames src)%nat ->
  circle (snd kp) (fst kp) (kp_size self) [height src] = Return pts ->
  In p pts -> Z.of_nat (width src) <= snd p ->
  fst (draw_video_with_kp white circle self v ((kp :: kps) :: rest) h) = Raise IndexError.
Proof.
  intros Hv Hf Hc Hp Hcol.
  rewrite (draw_video_with_kp_unfold white circle self h v src _ Hv).
  destruct (frames src) as [|n]; [lia|]. simpl seq.
  assert (Hr : (h ++ [src]) !! length h = Some src)
    by (rewrite lookup_app_r by lia; rewrite Nat.sub_diag; reflexivity).
  assert (Hderef : deref (length h) (h ++ [src]) = (Return src, h ++ [src]))
    by (unfold deref; rewrite Hr; reflexivity).
  assert (Hk : draw_keypoint white circle self (length h) 0 kp (h ++ [src])
               = (Raise IndexError, h ++ [src])).
  { unfold draw_keypoint. rewrite (bind_Return _ _ _ _ _ Hderef). simpl.
    rewrite Hc. unfold bind at 1. unfold lift.
    pose proof (assign_disk_effect white (length h) 0 pts (h ++ [src]) src Hr) as E.
    rewrite (traverse_raises (point_offset src 0) IndexError pts) in E; [exact E| |].
    - intros q e. apply point_offset_Raise.
    - exists p. split; [exact Hp|]. unfold point_offset.
      destruct (norm_index (height src) (fst p)) as [y|e] eqn:Hy.
      + rewrite (norm_index_out_of_range _ _ Hcol). reflexivity.
      + unfold norm_index in Hy. repeat (destruct (_ && _) in Hy); congruence. }
  assert (Hfr : draw_frame white circle self ((kp :: kps) :: rest) (length h) 0
                  (h ++ [src])
                = (Raise IndexError, h ++ [src])).
  { unfold draw_frame, item. simpl. unfold bind at 1. unfold lift.
    cbn [for_each]. rewrite (bind_Raise _ _ _ _ _ Hk). reflexivity. }
  cbn [for_each]. rewrite (bind_Raise _ _ _ _ _ Hfr). reflexivity.
Qed.

(** *** Column stitching *)

(** What [create_video_column] leaves on the heap: with borders enabled,
    the array the caller passed is itself overwritten. *)
Lemma create_video_column_in_place {pixel} (white : pixel) (self : Visualizer)
    (h : list (ndbatch pixel)) (videos : loc) (b : ndbatch pixel) :
  h !! videos = Some b -> b_height b <> O -> b_width b <> O ->
  snd (create_video_column white self videos h)
  = if draw_border self
    then <[videos :=
             set_b_pixels
               (imap (fun k p =>
                        let x := (k mod b_width b)%nat in
                        if (Nat.eqb x 0 || Nat.eqb x (b_width b - 1))%bool
                        then white else p)
                  (imap (fun k p =>
                           let y := ((k / b_width b) mod b_height b)%nat in
                           if (Nat.eqb y 0 || Nat.eqb y (b_height b - 1))%bool
                           then white else p)
                     (b_pixels b))) b]> h
    else h.
Proof.
  intros Hv Hh Hw.
  assert (Hlt : (videos < length h)%nat) by (eapply lookup_lt_Some; exact Hv).
  unfold create_video_column, paint_rows, paint_columns, deref, store.
  unfold_monad.
  apply Nat.eqb_neq in Hh, Hw.
  destruct (draw_border self).
  - rewrite Hv, Hh. simpl. rewrite list_lookup_insert_eq by exact Hlt. simpl.
    rewrite Hw. simpl. rewrite list_lookup_insert_eq by (rewrite length_insert; exact Hlt).
    rewrite list_insert_insert_eq. reflexivity.
  - simpl. rewrite Hv. reflexivity.
Qed.

(** C2, on the code as written: on a fresh [np.zeros((1, 1, 3, 3, 3))]
    batch, [create_video_column] with borders enabled returns the stitched
    column and leaves the caller's own array with its border pixels set to
    [(1, 1, 1)]: the array on the heap after the call differs from the one
    passed in. *)
Theorem create_video_column_overwrites_callers_array :
  create_video_column rgb_white default_visualizer 0 [small_batch]
  = (Return {| frames := 1; height := 3; width := 3;
               pixels := [rgb_white; rgb_white; rgb_white;
                          rgb_white; rgb_black; rgb_white;
                          rgb_white; rgb_white; rgb_white] |},
     [set_b_pixels [rgb_white; rgb_white; rgb_white;
                    rgb_white; rgb_black; rgb_white;
                    rgb_white; rgb_white; rgb_white] small_batch])
  /\ snd (create_video_column rgb_white default_visualizer 0 [small_batch]) !! 0%nat
     <> Some small_batch.
Proof.
  split; [vm_compute; reflexivity|]. vm_compute. discriminate.
Qed.

(** *** Keypoint rendering on concrete videos *)

(** C4, on the code as written: on one 4-by-2 frame with the single
    keypoint [(x, y) = (1, 1)], inside the frame, the rasterizer is told
    only the height and yields column index 2; the assignment of line 103
    raises [IndexError]. *)
Theorem keypoint_disk_not_clipped_to_width :
  skimage_circle 1 1 2 [4%nat]
  = Return [(0, 0); (0, 1); (0, 2); (1, 0); (1, 1); (1, 2); (2, 0); (2, 1); (2, 2)]
  /\ draw_video_with_kp rgb_white skimage_circle default_visualizer 0
       [[(1%Q, 1%Q)]] [tall_video]
     = (Raise IndexError, [tall_video; tall_video]).
Proof. split; vm_compute; reflexivity. Qed.

(** C3 as stated fails: for a two-frame video and a keypoint array with no
    entry, [kp_array[0]] raises [IndexError] and no array is returned. *)
Lemma draw_video_with_kp_needs_keypoint_entries :
  draw_video_with_kp rgb_white skimage_circle default_visualizer 0 [] [square_video]
  = (Raise IndexError, [square_video; square_video])
  /\ ~ (exists out h',
         draw_video_with_kp rgb_white skimage_circle default_visualizer 0 []
           [square_video] = (Return out, h')).
Proof.
  assert (E : draw_video_with_kp rgb_white skimage_circle default_visualizer 0 []
                [square_video]
              = (Raise IndexError, [square_video; square_video]))
    by (vm_compute; reflexivity).
  split; [exact E|]. intros (out & h' & H). rewrite E in H. discriminate H.
Qed.

(** The amended C3 on two square frames, the first with one keypoint and
    the second with none: the call returns, the input is as it was and the
    second frame of the result equals the second input frame. *)
Lemma draw_video_with_kp_frame_effect_witness :
  [square_video] !! 0%nat = Some square_video
  /\ snd (draw_video_with_kp rgb_white skimage_circle default_visualizer 0
            [[(1%Q, 1%Q)]; []] [square_video]) !! 0%nat = Some square_video
  /\ exists out h' res,
      draw_video_with_kp rgb_white skimage_circle default_visualizer 0
        [[(1%Q, 1%Q)]; []] [square_video] = (Return out, h')
      /\ h' !! out = Some res
      /\ same_shape square_video res
      /\ same_frame square_video res 1.
Proof.
  assert (Hv : [square_video] !! 0%nat = Some square_video) by reflexivity.
  destruct (draw_video_with_kp_frame_effect rgb_white skimage_circle default_visualizer
              [square_video] 0%nat square_video [[(1%Q, 1%Q)]; []] Hv)
    as (Hold & Hres & Hret).
  split; [exact Hv|]. split; [apply Hold; simpl; lia|].
  destruct Hret as (out & h' & E).
  - simpl. lia.
  - intros i kps kp _ _. apply skimage_circle_valid_on_wide_frames. simpl. lia.
  - destruct (Hres out h' E) as (_ & res & Hout & Hshape & Hkeep).
    exists out, h', res. repeat split; try assumption; try apply Hshape.
    apply Hkeep. reflexivity.
Defined.

(** * Further properties of the logger *)

Lemma bind_snd_related {S A B} (R : S -> S -> Prop) (c : M S A) (k : A -> M S B) (s : S) :
  (forall a b d, R a b -> R b d -> R a d) ->
  R s (snd (c s)) ->
  (forall a s1, R s1 (snd (k a s1))) ->
  R s (snd (bind c k s)).
Proof.
  intros Htrans Hc Hk. unfold bind.
  destruct (c s) as [[a|e] s1]; simpl in *; [|exact Hc].
  eapply Htrans; [exact Hc | apply Hk].
Qed.

Lemma rectangular_app_false (rows : list (list Q)) (v : list Q) :
  rectangular rows = false -> rectangular (rows ++ [v]) = false.
Proof.
  destruct rows as [|r rest]; [discriminate|]. simpl.
  rewrite forallb_app. intros ->. reflexivity.
Qed.

Lemma np_mean_axis0_ragged (rows : list (list Q)) :
  rectangular rows = false -> np_mean_axis0 rows = Raise ragged_mean.
Proof.
  destruct rows as [|r rest]; [discriminate|]. simpl. intros ->. reflexivity.
Qed.

Lemma np_mean_axis0_rectangular (rows : list (list Q)) :
  rectangular rows = true -> rows <> [] ->
  exists col, np_mean_axis0 rows = Return (Means col).
Proof.
  destruct rows as [|r rest]; [contradiction|]. simpl. intros -> _.
  eexists. reflexivity.
Qed.

Section LoggerMore.

Context {mstate ostate video kp output image : Type}.
Variable model_call : mstate -> batch video kp -> option output.
Variable model_call_transfer : mstate -> transfer_batch video kp -> option output.
Variable visualize_reconstruction : batch video kp -> output -> option image.
Variable visualize_transfer_grid : transfer_batch video kp -> output -> option image.

Local Abbreviation Lg := (Logger mstate ostate image).
Local Abbreviation log' :=
  (log model_call model_call_transfer visualize_reconstruction visualize_transfer_grid).
Local Abbreviation visualize_rec' := (visualize_rec model_call visualize_reconstruction).
Local Abbreviation visualize_transfer' :=
  (visualize_transfer model_call_transfer visualize_transfer_grid).

Lemma log_scores_ragged (names : list string) (s : Lg) :
  rectangular (loss_list s) = false ->
  log_scores names s = (Raise ragged_mean, s).
Proof.
  intros H. unfold log_scores. unfold_monad.
  rewrite (np_mean_axis0_ragged _ H). reflexivity.
Qed.

(** X1: a [log] call with an empty loss list raises [ValueError] before
    anything is stored; with a zero report interval it raises
    [ZeroDivisionError] after the counter was set and the record
    appended. *)
Theorem log_argument_errors (it0 : Z) (losses : list (string * Q))
    (inp : batch video kp) (s : Lg) :
  log' it0 [] inp s
  = (Raise (ValueError "not enough values to unpack (expected 2, got 0)"), s)
  /\ (losses <> [] -> log_freq s = 0 ->
      log' it0 losses inp s
      = (Raise ZeroDivisionError,
         set_loss_list (loss_list s ++ [map snd losses]) (set_it it0 s))).
Proof.
  split; [reflexivity|]. intros Hl Hf.
  destruct losses as [|l0 ls]; [contradiction|].
  unfold log, py_mod. unfold_monad. simpl. rewrite Hf. reflexivity.
Qed.

(** The statements of [log] after the record of the call was appended. *)
Lemma log_cons (it0 : Z) (l0 : string * Q) (ls : list (string * Q))
    (inp : batch video kp) (s : Lg) :
  log' it0 (l0 :: ls) inp s
  = (r <- lift (py_mod it0 (log_freq s)) ;;
     when (r =? 0)
       (log_scores (map fst (l0 :: ls)) ;;;
        visualize_rec' inp ;;;
        visualize_transfer' inp) ;;;
     s' <- get ;;
     r <- lift (py_mod it0 (cpk_freq s')) ;;
     when (r =? 0) save_cpk)
      (set_loss_list (loss_list s ++ [map snd (l0 :: ls)]) (set_it it0 s)).
Proof. reflexivity. Qed.

Lemma lift_py_mod {S} (a b : Z) (s : S) :
  b <> 0 -> lift (py_mod a b) s = (Return (a mod b), s).
Proof.
  intros Hb. unfold lift, py_mod. apply Z.eqb_neq in Hb. rewrite Hb. reflexivity.
Qed.

(** X2: once the buffer holds records of different lengths it stays that
    way through every [log] call, returned or raised, and every call at a
    report iteration raises the [TypeError] of the ragged mean: the buffer
    is never flushed again. *)
Theorem ragged_buffer_is_never_flushed (it0 : Z) (losses : list (string * Q))
    (inp : batch video kp) (s : Lg) :
  rectangular (loss_list s) = false ->
  rectangular (loss_list (snd (log' it0 losses inp s))) = false
  /\ (losses <> [] -> log_freq s <> 0 -> it0 mod log_freq s = 0 ->
      fst (log' it0 losses inp s) = Raise ragged_mean).
Proof.
  intros Hr.
  destruct losses as [|l0 ls]; [split; [exact Hr | intros []; reflexivity]|].
  pose proof (rectangular_app_false _ (map snd (l0 :: ls)) Hr) as Hr1.
  rewrite log_cons.
  set (s1 := set_loss_list (loss_list s ++ [map snd (l0 :: ls)]) (set_it it0 s)) in *.
  pose proof (log_scores_ragged (map fst (l0 :: ls)) s1 Hr1) as Hls.
  destruct (Z.eq_dec (log_freq s) 0) as [Hlf|Hlf].
  { rewrite (bind_Raise _ _ s1 ZeroDivisionError s1)
      by (unfold lift, py_mod; rewrite Hlf; reflexivity).
    split; [exact Hr1 | intros _ Hne; contradiction]. }
  rewrite (bind_Return _ _ _ _ _ (lift_py_mod it0 (log_freq s) s1 Hlf)).
  destruct (it0 mod log_freq s =? 0) eqn:Hm.
  - rewrite (bind_Raise _ _ s1 ragged_mean s1)
      by (unfold when; rewrite (bind_Raise _ _ _ _ _ Hls); reflexivity).
    split; [exact Hr1 | reflexivity].
  - split; [|intros _ _ E; apply Z.eqb_neq in Hm; contradiction].
    unfold when at 1. unfold bind at 1. unfold ret at 1.
    unfold bind at 1. unfold get at 1.
    change (cpk_freq s1) with (cpk_freq s).
    destruct (Z.eq_dec (cpk_freq s) 0) as [Hcf|Hcf].
    { rewrite (bind_Raise _ _ s1 ZeroDivisionError s1)
        by (unfold lift, py_mod; rewrite Hcf; reflexivity).
      exact Hr1. }
    rewrite (bind_Return _ _ _ _ _ (lift_py_mod it0 (cpk_freq s) s1 Hcf)).
    destruct (it0 mod cpk_freq s =? 0); simpl; [|exact Hr1].
    pose proof (save_cpk_effect s1) as E.
    destruct (optimizer s1); rewrite E; exact Hr1.
Qed.

Lemma logging_keeps_refl (s : Lg) : logging_keeps s s.
Proof. repeat split. exists []. reflexivity. Qed.







(** Loading the file that [save_cpk] has just written. *)
Lemma load_after_save (s : Lg) (o : ostate) (m' : mstate) (o' : option ostate) :
  optimizer s = Some o ->
  load_cpk (disk (snd (save_cpk s))) (it_name s "-checkpoint.pth.tar") (m', o')
  = (Return (VInt (it s)),
     (model s, match o' with Some _ => Some o | None => None end)).
Proof.
  intros Ho. pose proof (save_cpk_effect s) as E. rewrite Ho in E. rewrite E.
  unfold load_cpk. unfold_monad. simpl. rewrite String.eqb_refl.
  rewrite (lookup_insert_ne _ "iter" "model") by done.
  rewrite (lookup_insert_ne _ "optimizer" "model") by done.
  rewrite lookup_insert_eq. simpl.
  destruct o' as [o0|]; simpl.
  - rewrite (lookup_insert_ne _ "iter" "optimizer") by done.
    rewrite lookup_insert_eq. simpl. rewrite lookup_insert_eq. reflexivity.
  - rewrite lookup_insert_eq. reflexivity.
Qed.

(** X4: training can be resumed from a checkpoint written by [log]: after
    a [log] call that returns at an iteration divisible by [cpk_freq], the
    logger holds an optimizer, and [load_cpk] on the checkpoint file named
    after that iteration returns the iteration and installs the model
    state (and, if an optimizer is passed, the optimizer state) the logger
    holds. *)
Theorem log_checkpoint_can_be_loaded (it0 : Z) (losses : list (string * Q))
    (inp : batch video kp) (s s' : Lg) (m' : mstate) (o' : option ostate) :
  log' it0 losses inp s = (Return tt, s') ->
  it0 mod cpk_freq s = 0 ->
  exists o,
    optimizer s = Some o
    /\ load_cpk (disk s') (it_name s' "-checkpoint.pth.tar") (m', o')
       = (Return (VInt it0),
          (model s, match o' with Some _ => Some o | None => None end)).
Proof.
  intros H Hdue.
  destruct losses as [|l0 ls]; [discriminate H|].
  rewrite log_cons in H.
  set (s1 := set_loss_list (loss_list s ++ [map snd (l0 :: ls)]) (set_it it0 s)) in *.
  apply bind_Return_inv in H as (r1 & sa & Ha & H).
  assert (Hsa : sa = s1).
  { unfold lift in Ha. injection Ha as _ <-. reflexivity. }
  subst sa.
  apply bind_Return_inv in H as (u & s2 & Hrep & H).
  assert (K : logging_keeps s1 s2 /\ it s2 = it0).
  { apply when_Return_inv in Hrep as [[_ Hrep]|[_ ->]];
      [|split; [apply logging_keeps_refl | reflexivity]].
    apply report_block_Return_inv in Hrep as [_ (line & rec & trans & ->)].
    split; [|reflexivity]. repeat split. eexists [_; _]. reflexivity. }
  destruct K as ((K1 & K2 & K3 & K4 & K5 & K6 & _) & Kit).
  apply bind_Return_inv in H as (sb & sb' & Hb & H). injection Hb as <- <-.
  apply bind_Return_inv in H as (r2 & sc & Hc & H).
  unfold lift, py_mod in Hc. rewrite K3 in Hc. simpl in Hc.
  destruct (cpk_freq s =? 0); [discriminate Hc|]. injection Hc as <- <-.
  rewrite Hdue in H. simpl in H.
  pose proof (save_cpk_effect s2) as E.
  assert (Hos : optimizer s = optimizer s2) by (symmetry; exact K6).
  clear K6.
  destruct (optimizer s2) as [o|] eqn:Ho; [|rewrite E in H; discriminate H].
  exists o. split; [exact Hos|].
  pose proof (load_after_save s2 o m' o' Ho) as L.
  rewrite H in L. simpl in L.
  assert (Hname : it_name s' "-checkpoint.pth.tar" = it_name s2 "-checkpoint.pth.tar").
  { rewrite E in H. injection H as <-. reflexivity. }
  rewrite Hname, L, Kit, K5. reflexivity.
Qed.

(** X6: a failed [load_cpk] is not atomic.  When no file was written at
    the path it raises [FileNotFoundError] and touches nothing; when the
    checkpoint has a model entry but no optimizer entry and an optimizer
    is passed, it raises [KeyError] after the model state has already been
    replaced. *)
Theorem load_cpk_failures (files : list (string * file mstate ostate image))
    (path : string) (d : gmap string (cval mstate ostate))
    (sd m' : mstate) (o' : ostate) (mo : mstate * option ostate) :
  (read_file files path = None ->
   load_cpk files path mo = (Raise FileNotFoundError, mo))
  /\ (read_file files path = Some (Checkpoint d) ->
      d !! "model" = Some (VModel sd) -> d !! "optimizer" = None ->
      load_cpk files path (m', Some o')
      = (Raise (KeyError "optimizer"), (sd, Some o'))).
Proof.
  split.
  - intros H. unfold load_cpk. unfold_monad. rewrite H. reflexivity.
  - intros H Hm Ho. unfold load_cpk. unfold_monad. rewrite H. simpl.
    rewrite Hm. simpl. rewrite Ho. reflexivity.
Qed.

Lemma rectangular_uniform (width : nat) (rows : list (list Q)) :
  Forall (fun r => length r = width) rows -> rectangular rows = true.
Proof.
  intros H. destruct rows as [|r rest]; [reflexivity|]. simpl.
  apply Forall_cons in H as [Hr Hrest]. apply forallb_forall.
  intros r' Hin. apply Nat.eqb_eq. rewrite Hr.
  rewrite Forall_forall in Hrest. apply Hrest. apply list_elem_of_In. exact Hin.
Qed.

Lemma log_scores_returns (names : list string) (s : Lg) :
  rectangular (loss_list s) = true -> loss_list s <> [] ->
  exists line,
    log_scores names s
    = (Return tt, set_loss_list [] (set_log_file (log_file s ++ [line]) s)).
Proof.
  intros Hr Hne.
  destruct (np_mean_axis0_rectangular _ Hr Hne) as [col Hcol].
  unfold log_scores. unfold_monad. rewrite Hcol. simpl. eexists. reflexivity.
Qed.

Lemma visualize_rec_returns (inp : batch video kp) (s : Lg) :
  (forall m b, is_Some (model_call m b)) ->
  (forall b o, is_Some (visualize_reconstruction b o)) ->
  exists im,
    visualize_rec' inp s
    = (Return tt, set_disk ((it_name s "-rec.gif", Gif im) :: disk s) s).
Proof.
  intros Hm Hv. unfold visualize_rec, collaborator, write_file. unfold_monad.
  destruct (Hm (model s) inp) as [out ->]. simpl.
  destruct (Hv inp out) as [im ->]. simpl. exists im. reflexivity.
Qed.

Lemma visualize_transfer_returns (inp : batch video kp) (s : Lg) :
  (forall m b, is_Some (model_call_transfer m b)) ->
  (forall b o, is_Some (visualize_transfer_grid b o)) ->
  match kp_array inp with
  | Some k => (length (video_array inp) <= length k)%nat
  | None => True
  end ->
  exists im,
    visualize_transfer' inp s
    = (Return tt, set_disk ((it_name s "-trans.gif", Gif im) :: disk s) s).
Proof.
  intros Hm Hv Hk. unfold visualize_transfer, collaborator, write_file, reverse_batch.
  unfold_monad.
  rewrite (proj2 (Nat.ltb_ge _ _) (Nat.le_refl _)). simpl.
  destruct (kp_array inp) as [k|]; simpl.
  - rewrite (proj2 (Nat.ltb_ge _ _) Hk). simpl.
    match goal with
    | |- context [model_call_transfer ?m ?b] =>
        destruct (Hm m b) as [out ->]; simpl;
        destruct (Hv b out) as [im ->]; simpl
    end.
    exists im. reflexivity.
  - match goal with
    | |- context [model_call_transfer ?m ?b] =>
        destruct (Hm m b) as [out ->]; simpl;
        destruct (Hv b out) as [im ->]; simpl
    end.
    exists im. reflexivity.
Qed.

(** One servable call on a logger in working order. *)
Lemma log_returns_uniform (width : nat) (o : ostate) (c : log_call video kp) (s : Lg) :
  (forall m b, is_Some (model_call m b)) ->
  (forall b o, is_Some (visualize_reconstruction b o)) ->
  (forall m b, is_Some (model_call_transfer m b)) ->
  (forall b o, is_Some (visualize_transfer_grid b o)) ->
  width <> O -> servable width c ->
  log_freq s <> 0 -> cpk_freq s <> 0 -> optimizer s = Some o ->
  Forall (fun r => length r = width) (loss_list s) ->
  exists s',
    log' (call_it c) (call_losses c) (call_inp c) s = (Return tt, s')
    /\ log_freq s' = log_freq s /\ cpk_freq s' = cpk_freq s
    /\ optimizer s' = Some o
    /\ Forall (fun r => length r = width) (loss_list s').
Proof.
  intros Hm Hv Hmt Hvt Hw [Hlen Hkp] Hlf Hcf Ho Hrows.
  destruct (call_losses c) as [|l0 ls] eqn:Hlosses; [simpl in Hlen; lia|].
  set (s1 := set_loss_list (loss_list s ++ [map snd (l0 :: ls)]) (set_it (call_it c) s)).
  assert (Hrows1 : Forall (fun r => length r = width) (loss_list s1)).
  { simpl. apply Forall_app. split; [exact Hrows|].
    apply Forall_singleton. rewrite <- Hlen.
    exact (List.length_map snd (l0 :: ls)). }
  assert (Hrep : exists s2,
            when (call_it c mod log_freq s =? 0)
              (log_scores (map fst (l0 :: ls)) ;;;
               visualize_rec' (call_inp c) ;;;
               visualize_transfer' (call_inp c)) s1 = (Return tt, s2)
            /\ log_freq s2 = log_freq s /\ cpk_freq s2 = cpk_freq s
            /\ optimizer s2 = Some o
            /\ Forall (fun r => length r = width) (loss_list s2)).
  { destruct (call_it c mod log_freq s =? 0).
    - destruct (log_scores_returns (map fst (l0 :: ls)) s1) as [line E1].
      { exact (rectangular_uniform width _ Hrows1). }
      { simpl. destruct (loss_list s); discriminate. }
      destruct (visualize_rec_returns (call_inp c)
                  (set_loss_list [] (set_log_file (log_file s1 ++ [line]) s1)) Hm Hv)
        as [im E2].
      match type of E2 with
      | _ = (_, ?st) =>
          destruct (visualize_transfer_returns (call_inp c) st Hmt Hvt Hkp) as [im' E3]
      end.
      eexists. split.
      + unfold when. rewrite (bind_Return _ _ _ _ _ E1).
        rewrite (bind_Return _ _ _ _ _ E2). exact E3.
      + simpl. repeat split; try assumption. constructor.
    - exists s1. split; [reflexivity|]. repeat split; assumption. }
  destruct Hrep as (s2 & E2 & K1 & K2 & K3 & K4).
  assert (Hsave : exists s',
            when (call_it c mod cpk_freq s =? 0) save_cpk s2 = (Return tt, s')
            /\ log_freq s' = log_freq s /\ cpk_freq s' = cpk_freq s
            /\ optimizer s' = Some o
            /\ Forall (fun r => length r = width) (loss_list s')).
  { destruct (call_it c mod cpk_freq s =? 0).
    - pose proof (save_cpk_effect s2) as E. rewrite K3 in E.
      eexists. split; [exact E|]. simpl. repeat split; assumption.
    - exists s2. split; [reflexivity|]. repeat split; assumption. }
  destruct Hsave as (s' & E3 & L1 & L2 & L3 & L4).
  exists s'. split; [|repeat split; assumption].
  rewrite log_cons. fold s1.
  rewrite (bind_Return _ _ _ _ _ (lift_py_mod (call_it c) (log_freq s) s1 Hlf)).
  rewrite (bind_Return _ _ _ _ _ E2).
  unfold bind at 1. unfold get at 1.
  rewrite K2.
  rewrite (bind_Return _ _ _ _ _ (lift_py_mod (call_it c) (cpk_freq s) s2 Hcf)).
  exact E3.
Qed.

(** X16: a training loop the logger can serve never fails in the logger.
    On a logger constructed with non-zero intervals and an optimizer, with
    a model and a visualizer that always succeed, every sequence of [log]
    calls that all carry the same positive number of losses (and
    keypoints, where given, for every video) returns. *)
Theorem servable_loop_returns (width : nat) (calls : list (log_call video kp))
    (m : mstate) (dir : string) (o : ostate) (freq_log freq_cpk fill : Z)
    (files : list (string * file mstate ostate image)) :
  (forall m b, is_Some (model_call m b)) ->
  (forall b o, is_Some (visualize_reconstruction b o)) ->
  (forall m b, is_Some (model_call_transfer m b)) ->
  (forall b o, is_Some (visualize_transfer_grid b o)) ->
  width <> O -> freq_log <> 0 -> freq_cpk <> 0 ->
  Forall (servable width) calls ->
  exists s',
    run model_call model_call_transfer visualize_reconstruction visualize_transfer_grid
      calls (init m dir (Some o) freq_log freq_cpk fill files)
    = (Return tt, s').
Proof.
  intros Hm Hv Hmt Hvt Hw Hlf Hcf Hcalls.
  assert (G : forall (s : Lg),
            log_freq s = freq_log -> cpk_freq s = freq_cpk -> optimizer s = Some o ->
            Forall (fun r => length r = width) (loss_list s) ->
            exists s',
              run model_call model_call_transfer visualize_reconstruction
                visualize_transfer_grid calls s = (Return tt, s')).
  { induction Hcalls as [|c calls Hc Hcalls IH]; intros s E1 E2 E3 E4.
    - exists s. reflexivity.
    - destruct (log_returns_uniform width o c s Hm Hv Hmt Hvt Hw Hc
                  ltac:(rewrite E1; exact Hlf) ltac:(rewrite E2; exact Hcf) E3 E4)
        as (s1 & Hlog & K1 & K2 & K3 & K4).
      destruct (IH s1) as [s' Hrun]; try congruence; try assumption.
      exists s'. simpl. rewrite (bind_Return _ _ _ _ _ Hlog). exact Hrun. }
  apply G; try reflexivity. constructor.
Qed.

End LoggerMore.

(** * File names *)

Lemma string_length_app (a b : string) :
  String.length (a +:+ b) = (String.length a + String.length b)%nat.
Proof. induction a as [|c a IH]; simpl; [reflexivity | rewrite IH; reflexivity]. Qed.

Lemma string_app_assoc (a b c : string) : (a +:+ b) +:+ c = a +:+ (b +:+ c).
Proof.
  induction a as [|x a IH]; [reflexivity|].
  change (String x ((a +:+ b) +:+ c) = String x (a +:+ (b +:+ c))).
  rewrite IH. reflexivity.
Qed.

Lemma string_app_cancel_l (p a b : string) : p +:+ a = p +:+ b -> a = b.
Proof. induction p as [|c p IH]; simpl; [auto | intros [= H]; auto]. Qed.

Lemma string_app_cancel_r (t : string) : forall a b, a +:+ t = b +:+ t -> a = b.
Proof.
  induction a as [|c a IH]; intros [|c' b] H.
  - reflexivity.
  - apply (f_equal String.length) in H. rewrite !string_length_app in H.
    simpl in H. lia.
  - apply (f_equal String.length) in H. rewrite !string_length_app in H.
    simpl in H. lia.
  - injection H as -> H. f_equal. apply IH. exact H.
Qed.

(** The decimal digits of a non-empty numeral start with a digit. *)
Lemma digits_head (u : Decimal.uint) :
  u <> Decimal.Nil ->
  exists c rest,
    NilEmpty.string_of_uint u = String c rest
    /\ Ascii.eqb c "-" = false /\ Ascii.eqb c "+" = false /\ Ascii.eqb c "/" = false.
Proof.
  destruct u; intros H; [contradiction| ..]; simpl; eexists _, _; repeat split.
Qed.

(** [str(n)] is an optional minus sign and the digits of [|n|]. *)
Lemma str_shape (n : Z) :
  exists u, u <> Decimal.Nil
    /\ ((Z.to_int n = Decimal.Pos u /\ str n = NilEmpty.string_of_uint u)
        \/ (Z.to_int n = Decimal.Neg u
            /\ str n = String "-" (NilEmpty.string_of_uint u))).
Proof.
  unfold str. destruct n as [|p|p]; simpl.
  - exists (Decimal.D0 Decimal.Nil). split; [discriminate|]. left. split; reflexivity.
  - exists (Pos.to_uint p). split; [apply DecimalPos.Unsigned.to_uint_nonnil|]. left.
    split; [reflexivity|]. unfold NilZero.string_of_uint.
    pose proof (DecimalPos.Unsigned.to_uint_nonnil p). destruct (Pos.to_uint p); [contradiction|..];
      reflexivity.
  - exists (Pos.to_uint p). split; [apply DecimalPos.Unsigned.to_uint_nonnil|]. right.
    split; [reflexivity|]. unfold NilZero.string_of_uint.
    pose proof (DecimalPos.Unsigned.to_uint_nonnil p). destruct (Pos.to_uint p); [contradiction|..];
      reflexivity.
Qed.

(** [zfill] puts its zeros between the sign and the digits. *)
Lemma zfill_shape (n : Z) (w : Z) :
  exists u k, u <> Decimal.Nil
    /\ ((Z.to_int n = Decimal.Pos u
         /\ zfill (str n) w = zeros k +:+ NilEmpty.string_of_uint u)
        \/ (Z.to_int n = Decimal.Neg u
            /\ zfill (str n) w = String "-" (zeros k +:+ NilEmpty.string_of_uint u))).
Proof.
  destruct (str_shape n) as (u & Hu & [[Hd Hs]|[Hd Hs]]); exists u.
  - destruct (digits_head u Hu) as (c & rest & Hx & Hm & Hp & _).
    unfold zfill. rewrite Hs. destruct (w <=? _).
    + exists O. split; [exact Hu|]. left. split; [exact Hd | reflexivity].
    + eexists. split; [exact Hu|]. left. split; [exact Hd|].
      rewrite Hx, Hm, Hp. simpl. reflexivity.
  - unfold zfill. rewrite Hs. destruct (w <=? _).
    + exists O. split; [exact Hu|]. right. split; [exact Hd | reflexivity].
    + eexists. split; [exact Hu|]. right. split; [exact Hd|]. simpl. reflexivity.
Qed.

Lemma uint_of_zeros (k : nat) (x : string) (u : Decimal.uint) :
  NilEmpty.uint_of_string x = Some u ->
  NilEmpty.uint_of_string (zeros k +:+ x) = Some (Nat.iter k Decimal.D0 u).
Proof.
  intros H. induction k as [|k IH]; simpl; [exact H|]. rewrite IH. reflexivity.
Qed.

Lemma of_uint_leading_zeros (k : nat) (u : Decimal.uint) :
  Pos.of_uint (Nat.iter k Decimal.D0 u) = Pos.of_uint u.
Proof. induction k as [|k IH]; simpl; [reflexivity | exact IH]. Qed.

Lemma padded_digits_nonempty (k : nat) (u : Decimal.uint) :
  u <> Decimal.Nil ->
  exists c rest,
    zeros k +:+ NilEmpty.string_of_uint u = String c rest
    /\ Ascii.eqb c "-" = false /\ Ascii.eqb c "/" = false.
Proof.
  intros Hu. destruct k as [|k]; simpl.
  - destruct (digits_head u Hu) as (c & rest & Hx & Hm & _ & Hs).
    exists c, rest. auto.
  - eexists _, _. repeat split.
Qed.

Lemma int_of_unsigned_string (s : string) (c : ascii) (rest : string) :
  s = String c rest -> Ascii.eqb c "-" = false ->
  NilZero.int_of_string s = option_map Decimal.Pos (NilEmpty.uint_of_string s).
Proof. intros -> Hc. unfold NilZero.int_of_string. rewrite Hc. reflexivity. Qed.

Lemma int_of_negative_string (x : string) (c : ascii) (rest : string) :
  x = String c rest ->
  NilZero.int_of_string (String "-" x)
  = option_map Decimal.Neg (NilEmpty.uint_of_string x).
Proof. intros ->. reflexivity. Qed.

(** Reading a zero-padded name back as a number gives the iteration. *)
Lemma int_of_zfill (n : Z) (w : Z) :
  option_map Z.of_int (NilZero.int_of_string (zfill (str n) w)) = Some n.
Proof.
  destruct (zfill_shape n w) as (u & k & Hu & [[Hd ->]|[Hd ->]]);
    destruct (padded_digits_nonempty k u Hu) as (c & rest & E & Hm & _).
  - rewrite (int_of_unsigned_string _ c rest E Hm).
    rewrite (uint_of_zeros k _ u (NilEmpty.usu u)). simpl.
    f_equal. unfold Z.of_uint. rewrite of_uint_leading_zeros.
    rewrite <- (DecimalZ.of_to n), Hd. reflexivity.
  - rewrite (int_of_negative_string _ c rest E).
    rewrite (uint_of_zeros k _ u (NilEmpty.usu u)). simpl.
    f_equal. unfold Z.of_uint. rewrite of_uint_leading_zeros.
    rewrite <- (DecimalZ.of_to n), Hd. reflexivity.
Qed.

Lemma zfill_str_head (n : Z) (w : Z) (suffix : string) :
  exists c rest,
    zfill (str n) w +:+ suffix = String c rest /\ Ascii.eqb c "/" = false.
Proof.
  destruct (zfill_shape n w) as (u & k & Hu & [[_ ->]|[_ ->]]).
  - destruct (padded_digits_nonempty k u Hu) as (c & rest & E & _ & Hs).
    rewrite E. simpl. eexists _, _. split; [reflexivity | exact Hs].
  - simpl. eexists _, _. split; reflexivity.
Qed.

Lemma path_join_relative (dir b : string) (c : ascii) (rest : string) :
  b = String c rest -> Ascii.eqb c "/" = false ->
  exists prefix,
    path_join dir b = prefix +:+ b
    /\ forall b' c' rest', b' = String c' rest' -> Ascii.eqb c' "/" = false ->
         path_join dir b' = prefix +:+ b'.
Proof.
  intros -> Hc.
  assert (G : forall c' rest', Ascii.eqb c' "/" = false ->
            path_join dir (String c' rest')
            = (if (String.eqb dir "" || String.eqb
                     (substring (String.length dir - 1) 1 dir) "/")%bool
               then dir else dir +:+ "/") +:+ String c' rest').
  { intros c' rest' H'. unfold path_join.
    destruct c' as [[|] [|] [|] [|] [|] [|] [|] [|]]; try discriminate H';
      (destruct (_ || _)%bool; [reflexivity|];
       rewrite string_app_assoc; reflexivity). }
  eexists. split; [apply G; exact Hc|].
  intros b' c' rest' -> Hc'. apply G. exact Hc'.
Qed.

(** X5: checkpoint and visualization file names do not collide: for one
    directory, pad width and suffix, two loggers whose file names are equal
    are at the same iteration. *)
Theorem it_name_injective {mstate ostate image : Type}
    (s1 s2 : Logger mstate ostate image) (suffix : string) :
  log_dir s1 = log_dir s2 -> fill_counter s1 = fill_counter s2 ->
  it_name s1 suffix = it_name s2 suffix ->
  it s1 = it s2.
Proof.
  intros Hd Hf H. unfold it_name in H. rewrite Hd, Hf in H.
  destruct (zfill_str_head (it s1) (fill_counter s2) suffix) as (c1 & r1 & E1 & H1).
  destruct (zfill_str_head (it s2) (fill_counter s2) suffix) as (c2 & r2 & E2 & H2).
  destruct (path_join_relative (log_dir s2) _ c1 r1 E1 H1) as (prefix & P1 & Pall).
  rewrite P1, (Pall _ c2 r2 E2 H2) in H.
  apply string_app_cancel_l, string_app_cancel_r in H.
  pose proof (int_of_zfill (it s1) (fill_counter s2)) as D1.
  pose proof (int_of_zfill (it s2) (fill_counter s2)) as D2.
  rewrite H, D2 in D1. injection D1 as D1. symmetry. exact D1.
Qed.

(** X5 on two loggers at iteration 42. *)
Lemma it_name_injective_witness :
  it_name (set_it 42 default_logger) "-checkpoint.pth.tar"
  = it_name (set_it 42 frequent_logger) "-checkpoint.pth.tar"
  /\ it (set_it 42 default_logger) = it (set_it 42 frequent_logger).
Proof.
  assert (H : it_name (set_it 42 default_logger) "-checkpoint.pth.tar"
              = it_name (set_it 42 frequent_logger) "-checkpoint.pth.tar")
    by (vm_compute; reflexivity).
  split; [exact H|].
  apply (it_name_injective (set_it 42 default_logger) (set_it 42 frequent_logger)
           "-checkpoint.pth.tar"); [reflexivity | reflexivity | exact H].
Defined.

(** * Scoped use *)

(** X7: [with logger: body] ends with [__exit__].  When the logger holds an
    optimizer after the block, the outcome is that of the block, returned
    or raised, the log file is closed, and the checkpoint of the last
    iteration is on disk and loads back; when it holds none, [__exit__]
    raises [AttributeError] in place of the block's outcome and the log
    file is left open. *)
Theorem with_logger_finalization {mstate ostate image A : Type}
    (body : M (Logger mstate ostate image) A) (s : Logger mstate ostate image)
    (closed : bool) (m' : mstate) (o' : option ostate) :
  match optimizer (snd (body s)) with
  | Some o =>
      with_logger body (s, closed)
      = (fst (body s), (snd (save_cpk (snd (body s))), true))
      /\ load_cpk (disk (snd (save_cpk (snd (body s)))))
           (it_name (snd (body s)) "-checkpoint.pth.tar") (m', o')
         = (Return (VInt (it (snd (body s)))),
            (model (snd (body s)), match o' with Some _ => Some o | None => None end))
  | None =>
      with_logger body (s, closed) = (Raise AttributeError, (snd (body s), closed))
  end.
Proof.
  unfold with_logger, on_logger, logger_exit, on_logger. simpl.
  destruct (body s) as [r s1]. simpl.
  pose proof (save_cpk_effect s1) as E.
  destruct (optimizer s1) as [o|] eqn:Ho.
  - split.
    + unfold bind, modify. simpl. rewrite E. reflexivity.
    + rewrite E. simpl.
      unfold load_cpk. unfold_monad. simpl. rewrite String.eqb_refl.
      rewrite (lookup_insert_ne _ "iter" "model") by done.
      rewrite (lookup_insert_ne _ "optimizer" "model") by done.
      rewrite lookup_insert_eq. simpl.
      destruct o' as [o0|]; simpl.
      * rewrite (lookup_insert_ne _ "iter" "optimizer") by done.
        rewrite lookup_insert_eq. simpl. rewrite lookup_insert_eq. reflexivity.
      * rewrite lookup_insert_eq. reflexivity.
  - unfold bind, modify. simpl. rewrite E. reflexivity.
Qed.

(** * Further properties of the visualizer *)

Lemma for_each_skip {S A} (body : A -> M S unit) (l : list A) (s : S) :
  (forall x, In x l -> body x s = (Return tt, s)) ->
  for_each l body s = (Return tt, s).
Proof.
  induction l as [|x l IH]; intros H; [reflexivity|].
  simpl. rewrite (bind_Return _ _ _ _ _ (H x (or_introl eq_refl))).
  apply IH. intros y Hy. apply H. right. exact Hy.
Qed.

Lemma for_each_stops {S A} (body : A -> M S unit) (l : list A) (x : A) :
  In x l -> (forall s u s', body x s <> (Return u, s')) ->
  forall s u s', for_each l body s <> (Return u, s').
Proof.
  intros Hin Hx. induction l as [|y l IH]; [destruct Hin|].
  intros s u s' H. simpl in H. apply bind_Return_inv in H as (u1 & s1 & Hy & H).
  destruct Hin as [->|Hin]; [exact (Hx _ _ _ Hy)|].
  exact (IH Hin _ _ _ H).
Qed.

Lemma traverse_In {A B} (f : A -> outcome B) (l : list A) : forall ys y,
  traverse f l = Return ys ->
  (In y ys <-> exists x, In x l /\ f x = Return y).
Proof.
  induction l as [|x l IH]; intros ys y H.
  - injection H as <-. split; [intros [] | intros (x & [] & _)].
  - simpl in H. destruct (f x) as [y0|e] eqn:Hx; [|discriminate H].
    destruct (traverse f l) as [ys'|e] eqn:Hl; [|discriminate H].
    injection H as <-. split.
    + intros [<-|Hin]; [exists x; split; [left; reflexivity | exact Hx]|].
      apply (IH ys' y eq_refl) in Hin as (x' & Hin & Hx').
      exists x'. split; [right; exact Hin | exact Hx'].
    + intros (x' & [<-|Hin] & Hx'); [left; congruence|].
      right. apply (IH ys' y eq_refl). exists x'. split; assumption.
Qed.

Lemma fold_insert_lookup_in {A} (w : A) (offs : list nat) (k : nat) :
  In k offs ->
  forall (d : list A), (k < length d)%nat ->
  fold_left (fun d off => <[off := w]> d) offs d !! k = Some w.
Proof.
  induction offs as [|o offs IH]; intros Hin d Hk; [destruct Hin|].
  simpl. destruct (in_dec Nat.eq_dec k offs) as [Hin'|Hnot].
  - apply IH; [exact Hin'|]. rewrite length_insert. exact Hk.
  - destruct Hin as [->|Hin]; [|contradiction].
    rewrite (fold_insert_lookup_other w offs k Hnot).
    apply list_lookup_insert_eq. exact Hk.
Qed.

Lemma frame_offset_in_range (T H W i y x : nat) :
  (i < T)%nat -> (y < H)%nat -> (x < W)%nat ->
  ((i * H + y) * W + x < T * H * W)%nat.
Proof.
  intros Hi Hy Hx.
  assert (H1 : (i * H + y + 1 <= T * H)%nat).
  { assert ((i + 1) * H <= T * H)%nat by (apply Nat.mul_le_mono_r; lia). lia. }
  assert (H2 : ((i * H + y + 1) * W <= T * H * W)%nat)
    by (apply Nat.mul_le_mono_r; exact H1).
  lia.
Qed.

(** A position of the buffer determines frame, row and column. *)
Lemma frame_offset_inj (H W i j y x y' x' : nat) :
  (y < H)%nat -> (x < W)%nat -> (y' < H)%nat -> (x' < W)%nat ->
  ((i * H + y) * W + x)%nat = ((j * H + y') * W + x')%nat ->
  i = j /\ y = y' /\ x = x'.
Proof.
  intros Hy Hx Hy' Hx' E.
  assert (E1 : (i * H + y = j * H + y')%nat) by nia.
  assert (E2 : i = j) by nia.
  subst j. split; [reflexivity|]. split; nia.
Qed.

Section VisualizerMore.

Context {pixel : Type}.
Variable white : pixel.
Variable circle : Q -> Q -> Q -> list nat -> outcome (list (Z * Z)).

Local Abbreviation heap := (list (ndvideo pixel)).

(** X11: on a video whose frames all have an empty keypoint list,
    [draw_video_with_kp] returns a fresh reference to an exact copy and
    leaves the heap otherwise as it was. *)
Theorem draw_video_with_kp_without_keypoints (self : Visualizer) (h : heap) (v : loc)
    (src : ndvideo pixel) (kp_array : list (list (Q * Q))) :
  h !! v = Some src ->
  (forall i, (i < frames src)%nat -> kp_array !! i = Some []) ->
  draw_video_with_kp white circle self v kp_array h = (Return (length h), h ++ [src]).
Proof.
  intros Hv Hk. rewrite (draw_video_with_kp_unfold white circle self h v src kp_array Hv).
  rewrite for_each_skip; [reflexivity|].
  intros i Hi. apply in_seq in Hi. unfold draw_frame, item.
  rewrite (Hk i) by lia. reflexivity.
Qed.

(** X13: when the keypoint array has fewer entries than the video has
    frames, [draw_video_with_kp] never returns: it raises at the latest
    when it reaches the first frame without an entry. *)
Theorem draw_video_with_kp_short_keypoint_array (self : Visualizer) (h : heap) (v : loc)
    (src : ndvideo pixel) (kp_array : list (list (Q * Q))) :
  h !! v = Some src ->
  (length kp_array < frames src)%nat ->
  exists e h', draw_video_with_kp white circle self v kp_array h = (Raise e, h').
Proof.
  intros Hv Hlen. rewrite (draw_video_with_kp_unfold white circle self h v src kp_array Hv).
  destruct (for_each _ _ _) as [[u|e] h'] eqn:E; [|eauto].
  exfalso. revert E.
  apply (for_each_stops _ _ (length kp_array)); [apply in_seq; lia|].
  intros s u0 s' H. unfold draw_frame, item in H.
  rewrite (proj2 (lookup_ge_None kp_array (length kp_array)) (Nat.le_refl _)) in H.
  discriminate H.
Qed.

Lemma covered_same_dims (self : Visualizer) (a b : ndvideo pixel) kps y x :
  height b = height a -> width b = width a ->
  covered circle self a kps y x -> covered circle self b kps y x.
Proof.
  intros Hh Hw (kp0 & pts & p & H1 & H2 & H3 & H4 & H5).
  exists kp0, pts, p. rewrite Hh, Hw. auto.
Qed.

(** What one keypoint does to the array it is drawn on. *)
Lemma draw_keypoint_paints (self : Visualizer) (r i : nat) (kp0 : Q * Q)
    (hx hx' : heap) (a : ndvideo pixel) :
  hx !! r = Some a -> wf_video a -> (i < frames a)%nat ->
  draw_keypoint white circle self r i kp0 hx = (Return tt, hx') ->
  exists a',
    hx' !! r = Some a' /\ length hx' = length hx
    /\ frames a' = frames a /\ height a' = height a /\ width a' = width a
    /\ wf_video a'
    /\ forall i' y x, (y < height a)%nat -> (x < width a)%nat ->
         (i' = i /\ covered circle self a [kp0] y x -> pixel_at a' i' y x = Some white)
         /\ (~ (i' = i /\ covered circle self a [kp0] y x) ->
             pixel_at a' i' y x = pixel_at a i' y x)
         /\ (pixel_at a' i' y x = Some white \/ pixel_at a' i' y x = pixel_at a i' y x).
Proof.
  intros Hr Hwf Hi H.
  assert (Hlt : (r < length hx)%nat) by (eapply lookup_lt_Some; exact Hr).
  assert (Hderef : deref r hx = (Return a, hx))
    by (unfold deref; rewrite Hr; reflexivity).
  unfold draw_keypoint in H. rewrite (bind_Return _ _ _ _ _ Hderef) in H.
  simpl in H. unfold bind at 1 in H. unfold lift in H.
  destruct (circle (snd kp0) (fst kp0) (kp_size self) [height a]) as [pts|e] eqn:Hc;
    [|discriminate H].
  pose proof (assign_disk_effect white r i pts hx a Hr) as E.
  destruct (traverse (point_offset a i) pts) as [offs|e] eqn:Ht;
    rewrite E in H; [|discriminate H].
  injection H as <-.
  eexists. split; [apply list_lookup_insert_eq; exact Hlt|].
  split; [apply length_insert|].
  split; [reflexivity|]. split; [reflexivity|]. split; [reflexivity|].
  split; [unfold wf_video; simpl; rewrite fold_insert_length; exact Hwf|].
  intros i' y x Hy Hx. unfold pixel_at, offset. simpl.
  assert (Hcov : In ((i' * height a + y) * width a + x)%nat offs
                 <-> i' = i /\ covered circle self a [kp0] y x).
  { rewrite (traverse_In _ _ _ _ Ht). split.
    - intros (p & Hp & Hoff). unfold point_offset in Hoff.
      destruct (norm_index (height a) (fst p)) as [y'|] eqn:Hy'; [|discriminate Hoff].
      destruct (norm_index (width a) (snd p)) as [x'|] eqn:Hx'; [|discriminate Hoff].
      injection Hoff as Hoff. unfold offset in Hoff.
      apply frame_offset_inj in Hoff as (-> & -> & ->);
        [|exact (norm_index_bound _ _ _ Hy')|exact (norm_index_bound _ _ _ Hx')
         |exact Hy|exact Hx].
      split; [reflexivity|]. exists kp0, pts, p.
      split; [left; reflexivity|]. auto.
    - intros (-> & kp1 & pts' & p & [<-|[]] & Hc' & Hp & Hy' & Hx').
      rewrite Hc in Hc'. injection Hc' as <-.
      exists p. split; [exact Hp|]. unfold point_offset. rewrite Hy', Hx'. reflexivity. }
  destruct (in_dec Nat.eq_dec ((i' * height a + y) * width a + x)%nat offs) as [Hin|Hnot].
  - pose proof (proj1 Hcov Hin) as [-> Hcv].
    assert (Hw : fold_left (fun d off => <[off := white]> d) offs (pixels a)
                 !! ((i * height a + y) * width a + x)%nat = Some white).
    { apply fold_insert_lookup_in; [exact Hin|]. unfold wf_video in Hwf. rewrite Hwf.
      apply frame_offset_in_range; assumption. }
    split; [intros _; exact Hw|]. split; [intros Hn; contradiction Hn; auto|].
    left. exact Hw.
  - pose proof (fold_insert_lookup_other white offs _ Hnot (pixels a)) as Hsame.
    split; [intros Hcv; contradiction Hnot; apply Hcov; exact Hcv|].
    split; [intros _; exact Hsame|]. right. exact Hsame.
Qed.

(** What the keypoints of one frame do to the array. *)
Lemma draw_keypoints_paint (self : Visualizer) (r i : nat) (kps : list (Q * Q)) :
  forall (hx hx' : heap) (a : ndvideo pixel),
  hx !! r = Some a -> wf_video a -> (i < frames a)%nat ->
  for_each kps (draw_keypoint white circle self r i) hx = (Return tt, hx') ->
  exists a',
    hx' !! r = Some a' /\ length hx' = length hx
    /\ frames a' = frames a /\ height a' = height a /\ width a' = width a
    /\ wf_video a'
    /\ forall i' y x, (y < height a)%nat -> (x < width a)%nat ->
         (i' = i /\ covered circle self a kps y x -> pixel_at a' i' y x = Some white)
         /\ (~ (i' = i /\ covered circle self a kps y x) ->
             pixel_at a' i' y x = pixel_at a i' y x)
         /\ (pixel_at a' i' y x = Some white \/ pixel_at a' i' y x = pixel_at a i' y x).
Proof.
  induction kps as [|kp0 rest IH]; intros hx hx' a Hr Hwf Hi H.
  - injection H as <-. exists a. repeat split; try assumption; try reflexivity.
    + intros (_ & kp1 & pts & p & [] & _).
    + right. reflexivity.
  - simpl in H. apply bind_Return_inv in H as ([] & hx1 & Hk & H).
    destruct (draw_keypoint_paints self r i kp0 hx hx1 a Hr Hwf Hi Hk)
      as (a1 & Hr1 & Hl1 & Hf1 & Hh1 & Hw1 & Hwf1 & P1).
    destruct (IH hx1 hx' a1 Hr1 Hwf1 ltac:(rewrite Hf1; exact Hi) H)
      as (a' & Hr' & Hl' & Hf' & Hh' & Hw' & Hwf' & P').
    exists a'. split; [exact Hr'|]. split; [congruence|].
    split; [congruence|]. split; [congruence|]. split; [congruence|].
    split; [exact Hwf'|].
    intros i' y x Hy Hx.
    destruct (P1 i' y x Hy Hx) as (A1 & A2 & A3).
    destruct (P' i' y x ltac:(rewrite Hh1; exact Hy) ltac:(rewrite Hw1; exact Hx))
      as (B1 & B2 & B3).
    split; [|split].
    + intros (-> & kp1 & pts & p & [<-|Hin] & Hc & Hp & Hy' & Hx').
      * assert (W1 : pixel_at a1 i y x = Some white).
        { apply A1. split; [reflexivity|]. exists kp0, pts, p.
          split; [left; reflexivity|]. auto. }
        destruct B3 as [B3|B3]; [exact B3 | rewrite B3; exact W1].
      * apply B1. split; [reflexivity|].
        apply (covered_same_dims self a a1); [exact Hh1 | exact Hw1|].
        exists kp1, pts, p. auto.
    + intros Hn. rewrite B2, A2; [reflexivity| |].
      * intros (-> & kp1 & pts & p & [<-|[]] & Hc).
        apply Hn. split; [reflexivity|]. exists kp0, pts, p.
        split; [left; reflexivity | exact Hc].
      * intros (-> & Hcv). apply Hn. split; [reflexivity|].
        apply (covered_same_dims self a1 a) in Hcv; [|congruence|congruence].
        destruct Hcv as (kp1 & pts & p & Hin & Hc).
        exists kp1, pts, p. split; [right; exact Hin | exact Hc].
    + destruct B3 as [B3|B3]; [left; exact B3|]. rewrite B3. exact A3.
Qed.

(** What the frames of a list without repetition do to the array. *)
Lemma draw_frames_paint (self : Visualizer) (kp_array : list (list (Q * Q)))
    (r : nat) (l : list nat) :
  NoDup l ->
  forall (hx hx' : heap) (a : ndvideo pixel),
  hx !! r = Some a -> wf_video a -> (forall j, In j l -> (j < frames a)%nat) ->
  for_each l (draw_frame white circle self kp_array r) hx = (Return tt, hx') ->
  exists a',
    hx' !! r = Some a'
    /\ frames a' = frames a /\ height a' = height a /\ width a' = width a
    /\ forall i' y x, (y < height a)%nat -> (x < width a)%nat ->
         (In i' l -> forall kps, kp_array !! i' = Some kps ->
            (covered circle self a kps y x -> pixel_at a' i' y x = Some white)
            /\ (~ covered circle self a kps y x ->
                pixel_at a' i' y x = pixel_at a i' y x))
         /\ (~ In i' l -> pixel_at a' i' y x = pixel_at a i' y x).
Proof.
  induction l as [|j l IH]; intros Hnd hx hx' a Hr Hwf Hall H.
  - injection H as <-. exists a. split; [exact Hr|].
    split; [reflexivity|]. split; [reflexivity|]. split; [reflexivity|].
    intros i' y x _ _. split; [intros [] | intros _; reflexivity].
  - apply NoDup_cons in Hnd as [Hj Hnd].
    simpl in H. apply bind_Return_inv in H as ([] & hx1 & Hfr & H).
    unfold draw_frame, item in Hfr.
    destruct (kp_array !! j) as [kps_j|] eqn:Hkj; [|discriminate Hfr].
    unfold bind at 1 in Hfr. unfold lift in Hfr.
    destruct (draw_keypoints_paint self r j kps_j hx hx1 a Hr Hwf
                (Hall j (or_introl eq_refl)) Hfr)
      as (a1 & Hr1 & _ & Hf1 & Hh1 & Hw1 & Hwf1 & P1).
    destruct (IH Hnd hx1 hx' a1 Hr1 Hwf1
                ltac:(intros k Hk; rewrite Hf1; apply Hall; right; exact Hk) H)
      as (a' & Hr' & Hf' & Hh' & Hw' & P').
    exists a'. split; [exact Hr'|]. split; [congruence|]. split; [congruence|].
    split; [congruence|].
    intros i' y x Hy Hx.
    destruct (P1 i' y x Hy Hx) as (A1 & A2 & _).
    destruct (P' i' y x ltac:(rewrite Hh1; exact Hy) ltac:(rewrite Hw1; exact Hx))
      as (B1 & B2).
    split.
    + intros [<-|Hin] kps Hk.
      * rewrite Hkj in Hk. injection Hk as <-.
        rewrite (B2 ltac:(intros Hin; apply Hj, list_elem_of_In; exact Hin)).
        split; [intros Hcv; apply A1; auto|].
        intros Hn. apply A2. intros [_ Hcv]. contradiction.
      * assert (Hne : i' <> j)
          by (intros ->; apply Hj, list_elem_of_In; exact Hin).
        destruct (B1 Hin kps Hk) as (C1 & C2).
        split.
        -- intros Hcv. apply C1.
           apply (covered_same_dims self a a1); [exact Hh1 | exact Hw1 | exact Hcv].
        -- intros Hn. rewrite C2.
           ++ apply A2. intros [E _]. contradiction.
           ++ intros Hcv. apply Hn.
              apply (covered_same_dims self a1 a); [congruence | congruence | exact Hcv].
    + intros Hn. rewrite B2 by (intros Hin; apply Hn; right; exact Hin).
      apply A2. intros [-> _]. apply Hn. left. reflexivity.
Qed.

(** X12: what keypoint rendering draws.  When [draw_video_with_kp] returns
    on a video whose buffer matches its shape, a pixel of frame [i] of the
    result is [(1, 1, 1)] if the rasterizer yields its row and column for
    one of the keypoints of frame [i], and is the input pixel otherwise. *)
Theorem draw_video_with_kp_paints_disks (self : Visualizer) (h h' : heap) (v out : loc)
    (src : ndvideo pixel) (kp_array : list (list (Q * Q))) :
  h !! v = Some src -> wf_video src ->
  draw_video_with_kp white circle self v kp_array h = (Return out, h') ->
  exists res,
    h' !! out = Some res
    /\ forall i kps y x,
        (i < frames src)%nat -> kp_array !! i = Some kps ->
        (y < height src)%nat -> (x < width src)%nat ->
        (covered circle self src kps y x -> pixel_at res i y x = Some white)
        /\ (~ covered circle self src kps y x ->
            pixel_at res i y x = pixel_at src i y x).
Proof.
  intros Hv Hwf H.
  rewrite (draw_video_with_kp_unfold white circle self h v src kp_array Hv) in H.
  destruct (for_each _ _ _) as [[[]|e] h1] eqn:E; [|discriminate H].
  injection H as <- <-.
  assert (Hr : (h ++ [src]) !! length h = Some src)
    by (rewrite lookup_app_r by lia; rewrite Nat.sub_diag; reflexivity).
  destruct (draw_frames_paint self kp_array (length h) (seq 0 (frames src))
              (NoDup_seq 0 (frames src)) (h ++ [src]) h1 src Hr Hwf
              ltac:(intros j Hj; apply in_seq in Hj; lia) E)
    as (res & Hres & _ & _ & _ & P).
  exists res. split; [exact Hres|].
  intros i kps y x Hi Hk Hy Hx.
  destruct (P i y x Hy Hx) as (P1 & _).
  apply P1; [apply in_seq; lia | exact Hk].
Qed.

End VisualizerMore.

(** *** Column stitching *)

(** Blocks of equal length laid end to end. *)
Lemma flat_map_blocks_length {A} (f : nat -> list A) (L : nat) (N : nat) : forall a,
  (forall j, (a <= j < a + N)%nat -> length (f j) = L) ->
  length (flat_map f (seq a N)) = (N * L)%nat.
Proof.
  induction N as [|N IH]; intros a Hf; [reflexivity|].
  simpl. rewrite length_app. rewrite IH.
  - rewrite Hf; [reflexivity | lia].
  - intros j Hj. apply Hf. lia.
Qed.

Lemma flat_map_blocks_lookup {A} (f : nat -> list A) (L : nat) (N : nat) : forall a i r,
  (forall j, (a <= j < a + N)%nat -> length (f j) = L) ->
  (i < N)%nat -> (r < L)%nat ->
  flat_map f (seq a N) !! (i * L + r)%nat = f (a + i)%nat !! r.
Proof.
  induction N as [|N IH]; intros a i r Hf Hi Hr; [lia|].
  simpl. destruct i as [|i].
  - rewrite lookup_app_l; [|rewrite Hf; lia]. rewrite Nat.add_0_r. reflexivity.
  - rewrite lookup_app_r; [|rewrite Hf; lia]. rewrite Hf; [|lia].
    replace (S i * L + r - L)%nat with (i * L + r)%nat by lia.
    rewrite IH; [|intros j Hj; apply Hf; lia|lia|exact Hr].
    replace (S a + i)%nat with (a + S i)%nat by lia. reflexivity.
Qed.

Lemma block_lookup {A} (l : list A) (off L r : nat) :
  (r < L)%nat -> take L (drop off l) !! r = l !! (off + r)%nat.
Proof. intros Hr. rewrite lookup_take_lt by exact Hr. apply lookup_drop. Qed.

Lemma block_length {A} (l : list A) (off L : nat) :
  (off + L <= length l)%nat -> length (take L (drop off l)) = L.
Proof. intros H. rewrite length_take, length_drop. lia. Qed.

Section ColumnFacts.

Context {pixel : Type}.
Variable white : pixel.

Lemma batch_offset_row_col (b : ndbatch pixel) (n t y x : nat) :
  (y < b_height b)%nat -> (x < b_width b)%nat ->
  (batch_offset b n t y x mod b_width b = x
   /\ (batch_offset b n t y x / b_width b) mod b_height b = y)%nat.
Proof.
  intros Hy Hx. unfold batch_offset.
  set (q := (n * b_frames b + t)%nat).
  assert (Hm : (((q * b_height b + y) * b_width b + x) mod b_width b = x)%nat).
  { rewrite Nat.add_comm, Nat.Div0.mod_add. apply Nat.mod_small. exact Hx. }
  assert (Hd : (((q * b_height b + y) * b_width b + x) / b_width b
                = q * b_height b + y)%nat).
  { rewrite Nat.add_comm, Nat.div_add by lia. rewrite Nat.div_small by exact Hx.
    reflexivity. }
  split; [exact Hm|]. rewrite Hd.
  rewrite Nat.add_comm, Nat.Div0.mod_add. apply Nat.mod_small. exact Hy.
Qed.

Lemma painted_pixel (b : ndbatch pixel) (n t y x : nat) :
  (y < b_height b)%nat -> (x < b_width b)%nat ->
  batch_pixel_at (painted white b) n t y x
  = (fun p => if on_border b y x then white else p) <$> batch_pixel_at b n t y x.
Proof.
  intros Hy Hx. unfold batch_pixel_at, painted.
  change (batch_offset (set_b_pixels _ b) n t y x) with (batch_offset b n t y x).
  simpl. rewrite !list_lookup_imap.
  destruct (batch_offset_row_col b n t y x Hy Hx) as [-> ->].
  destruct (b_pixels b !! batch_offset b n t y x) as [p|]; [|reflexivity].
  simpl. unfold on_border.
  destruct (Nat.eqb y 0), (Nat.eqb y (b_height b - 1)), (Nat.eqb x 0),
    (Nat.eqb x (b_width b - 1)); reflexivity.
Qed.

Lemma painted_dims (b : ndbatch pixel) :
  b_batch (painted white b) = b_batch b /\ b_frames (painted white b) = b_frames b
  /\ b_height (painted white b) = b_height b /\ b_width (painted white b) = b_width b
  /\ length (b_pixels (painted white b)) = length (b_pixels b).
Proof.
  repeat split. unfold painted. simpl. rewrite !length_imap. reflexivity.
Qed.

(** The outcome of [create_video_column], case by case. *)
Lemma create_video_column_outcome (self : Visualizer) (h : list (ndbatch pixel))
    (v : loc) (b : ndbatch pixel) :
  h !! v = Some b ->
  if draw_border self
  then if Nat.eqb (b_height b) 0
       then create_video_column white self v h = (Raise IndexError, h)
       else if Nat.eqb (b_width b) 0
            then fst (create_video_column white self v h) = Raise IndexError
            else create_video_column white self v h
                 = (concatenate_axis1 (painted white b), <[v := painted white b]> h)
  else create_video_column white self v h = (concatenate_axis1 b, h).
Proof.
  intros Hv.
  assert (Hlt : (v < length h)%nat) by (eapply lookup_lt_Some; exact Hv).
  unfold create_video_column, paint_rows, paint_columns, deref, store.
  unfold_monad.
  destruct (draw_border self); simpl; rewrite Hv; [|reflexivity].
  destruct (Nat.eqb (b_height b) 0); simpl; [reflexivity|].
  rewrite list_lookup_insert_eq by exact Hlt. simpl.
  destruct (Nat.eqb (b_width b) 0); simpl; [reflexivity|].
  rewrite list_lookup_insert_eq by (rewrite length_insert; exact Hlt).
  rewrite list_insert_insert_eq. reflexivity.
Qed.


(** X9: with borders enabled and frames of non-zero size, the array the
    caller passed to [create_video_column] ends with every pixel of the
    first and last row and of the first and last column of each frame set
    to [(1, 1, 1)], and every other pixel as it was. *)
Theorem create_video_column_paints_borders (self : Visualizer)
    (h : list (ndbatch pixel)) (v : loc) (b : ndbatch pixel) :
  h !! v = Some b -> draw_border self = true ->
  b_height b <> O -> b_width b <> O ->
  exists b',
    snd (create_video_column white self v h) !! v = Some b'
    /\ b_batch b' = b_batch b /\ b_frames b' = b_frames b
    /\ b_height b' = b_height b /\ b_width b' = b_width b
    /\ forall n t y x, (y < b_height b)%nat -> (x < b_width b)%nat ->
         batch_pixel_at b' n t y x
         = (fun p => if on_border b y x then white else p) <$> batch_pixel_at b n t y x.
Proof.
  intros Hv Hb Hh Hw.
  assert (Hlt : (v < length h)%nat) by (eapply lookup_lt_Some; exact Hv).
  pose proof (create_video_column_outcome self h v b Hv) as E.
  rewrite Hb in E. apply Nat.eqb_neq in Hh, Hw. rewrite Hh, Hw in E.
  exists (painted white b). rewrite E. simpl.
  split; [apply list_lookup_insert_eq; exact Hlt|].
  repeat split. intros n t y x Hy Hx. apply painted_pixel; assumption.
Qed.

(** Stitching by [np.concatenate(list(videos), axis=1)]. *)
Lemma concatenate_axis1_stitches (b : ndbatch pixel) (out : ndvideo pixel) :
  wf_batch b -> concatenate_axis1 b = Return out ->
  frames out = b_frames b /\ height out = (b_batch b * b_height b)%nat
  /\ width out = b_width b /\ wf_video out
  /\ forall n t y x,
       (n < b_batch b)%nat -> (t < b_frames b)%nat ->
       (y < b_height b)%nat -> (x < b_width b)%nat ->
       pixel_at out t (n * b_height b + y) x = batch_pixel_at b n t y x.
Proof.
  intros Hwf H. unfold concatenate_axis1 in H.
  destruct (Nat.eqb (b_batch b) 0); [discriminate H|]. injection H as <-.
  unfold wf_batch in Hwf. simpl.
  set (FL := (b_height b * b_width b)%nat).
  set (chunk := fun t n => take FL (drop ((n * b_frames b + t) * FL) (b_pixels b))).
  assert (Hchunk : forall t n, (t < b_frames b)%nat -> (n < b_batch b)%nat ->
                     length (chunk t n) = FL).
  { intros t n Ht Hn. apply block_length. rewrite Hwf. unfold FL.
    assert ((n * b_frames b + t + 1) * (b_height b * b_width b)
            <= b_batch b * b_frames b * (b_height b * b_width b))%nat; [|lia].
    apply Nat.mul_le_mono_r.
    assert ((n + 1) * b_frames b <= b_batch b * b_frames b)%nat
      by (apply Nat.mul_le_mono_r; lia).
    lia. }
  assert (Hrow : forall t, (t < b_frames b)%nat ->
                   length (flat_map (chunk t) (seq 0 (b_batch b)))
                   = (b_batch b * FL)%nat).
  { intros t Ht. apply flat_map_blocks_length. intros n Hn. apply Hchunk; [exact Ht|lia]. }
  split; [reflexivity|]. split; [reflexivity|]. split; [reflexivity|]. split.
  - unfold wf_video. simpl.
    rewrite (flat_map_blocks_length _ (b_batch b * FL)%nat).
    + unfold FL. lia.
    + intros t Ht. apply Hrow. lia.
  - intros n t y x Hn Ht Hy Hx. unfold pixel_at, offset, batch_pixel_at, batch_offset.
    simpl.
    assert (Hin : (y * b_width b + x < FL)%nat).
    { unfold FL. assert ((y + 1) * b_width b <= b_height b * b_width b)%nat
        by (apply Nat.mul_le_mono_r; lia). lia. }
    replace ((t * (b_batch b * b_height b) + (n * b_height b + y)) * b_width b + x)%nat
      with (t * (b_batch b * FL) + (n * FL + (y * b_width b + x)))%nat
      by (unfold FL; lia).
    rewrite (flat_map_blocks_lookup _ (b_batch b * FL)%nat (b_frames b) 0 t);
      [|intros j Hj; apply Hrow; lia|exact Ht|].
    + simpl. rewrite (flat_map_blocks_lookup _ FL (b_batch b) 0 n);
        [|intros j Hj; apply Hchunk; [exact Ht|lia]|exact Hn|exact Hin].
      simpl. unfold chunk. rewrite block_lookup by exact Hin.
      f_equal. unfold FL. lia.
    + assert ((n + 1) * FL <= b_batch b * FL)%nat
        by (apply Nat.mul_le_mono_r; lia). lia.
Qed.

(** X10: when [create_video_column] returns on a batch whose buffer
    matches its shape, the column has the frames of the batch, the height
    of all batch elements together and their width, and shows frame [t] of
    batch element [n] in rows [n * height ..] of its frame [t], pixel for
    pixel as the batch is left on the heap. *)
Theorem create_video_column_stitches (self : Visualizer) (h h' : list (ndbatch pixel))
    (v : loc) (b : ndbatch pixel) (out : ndvideo pixel) :
  h !! v = Some b -> wf_batch b ->
  create_video_column white self v h = (Return out, h') ->
  exists b',
    h' !! v = Some b'
    /\ frames out = b_frames b /\ height out = (b_batch b * b_height b)%nat
    /\ width out = b_width b /\ wf_video out
    /\ forall n t y x,
         (n < b_batch b)%nat -> (t < b_frames b)%nat ->
         (y < b_height b)%nat -> (x < b_width b)%nat ->
         pixel_at out t (n * b_height b + y) x = batch_pixel_at b' n t y x.
Proof.
  intros Hv Hwf H.
  assert (Hlt : (v < length h)%nat) by (eapply lookup_lt_Some; exact Hv).
  pose proof (create_video_column_outcome self h v b Hv) as E.
  destruct (draw_border self).
  - destruct (Nat.eqb (b_height b) 0); [rewrite E in H; discriminate H|].
    destruct (Nat.eqb (b_width b) 0); [rewrite H in E; discriminate E|].
    rewrite E in H. injection H as Hc <-.
    destruct (painted_dims b) as (D1 & D2 & D3 & D4 & D5).
    destruct (concatenate_axis1_stitches (painted white b) out) as (S1 & S2 & S3 & S4 & S5).
    { unfold wf_batch. rewrite D1, D2, D3, D4, D5. exact Hwf. }
    { exact Hc. }
    exists (painted white b). split; [apply list_lookup_insert_eq; exact Hlt|].
    rewrite D1, D3 in S2. rewrite D2 in S1. rewrite D4 in S3.
    rewrite D1, D2, D3, D4 in S5.
    split; [exact S1|]. split; [exact S2|]. split; [exact S3|].
    split; [exact S4 | exact S5].
  - rewrite E in H. injection H as Hc <-.
    destruct (concatenate_axis1_stitches b out Hwf Hc) as (S1 & S2 & S3 & S4 & S5).
    exists b. split; [exact Hv|].
    split; [exact S1|]. split; [exact S2|]. split; [exact S3|].
    split; [exact S4 | exact S5].
Qed.

End ColumnFacts.

(** *** Image grids *)

Lemma bind_snd_related_at {S A B} (R : S -> S -> Prop) (c : M S A) (k : A -> M S B)
    (s : S) :
  (forall a b d, R a b -> R b d -> R a d) ->
  R s (snd (c s)) ->
  (forall a s1, c s = (Return a, s1) -> R s1 (snd (k a s1))) ->
  R s (snd (bind c k s)).
Proof.
  intros Htrans Hc Hk. unfold bind.
  destruct (c s) as [[a|e] s1] eqn:E; simpl in *; [|exact Hc].
  eapply Htrans; [exact Hc | apply Hk; reflexivity].
Qed.

Lemma for_list_related {S A B} (R : S -> S -> Prop) (f : A -> M S B) (l : list A) :
  (forall a, R a a) -> (forall a b d, R a b -> R b d -> R a d) ->
  (forall x s, In x l -> R s (snd (f x s))) ->
  forall s, R s (snd (for_list f l s)).
Proof.
  intros Hrefl Htrans. induction l as [|x l IH]; intros Hf s; [apply Hrefl|].
  simpl. apply bind_snd_related; [exact Htrans| |].
  - apply Hf. left. reflexivity.
  - intros y s1. apply bind_snd_related; [exact Htrans| |].
    + apply IH. intros x' s' Hin. apply Hf. right. exact Hin.
    + intros ys s2. apply Hrefl.
Qed.

Section GridFacts.

Context {pixel : Type}.
Variable white : pixel.
Variable circle : Q -> Q -> Q -> list nat -> outcome (list (Z * Z)).

Lemma arrays_kept_refl (touched : loc -> Prop) (w : arrays pixel) :
  arrays_kept touched w w.
Proof. repeat split; auto. Qed.

Lemma arrays_kept_trans (touched : loc -> Prop) (a b d : arrays pixel) :
  arrays_kept touched a b -> arrays_kept touched b d -> arrays_kept touched a d.
Proof.
  intros (A1 & A2 & A3 & A4) (B1 & B2 & B3 & B4).
  split; [lia|]. split; [lia|]. split.
  - intros l Hl. rewrite B3 by lia. apply A3. exact Hl.
  - intros l Hl Ht. rewrite B4 by (try lia; exact Ht). apply A4; assumption.
Qed.

Lemma arrays_kept_weaken (touched : loc -> Prop) (a b : arrays pixel) :
  arrays_kept (fun _ => False) a b -> arrays_kept touched a b.
Proof.
  intros (A1 & A2 & A3 & A4). repeat split; try assumption.
  intros l Hl _. apply A4; [exact Hl | tauto].
Qed.

(** [draw_video_with_kp] on any reference: the heap only grows. *)
Lemma draw_video_with_kp_grows (self : Visualizer) (h : list (ndvideo pixel)) (v : loc)
    (kp_array : list (list (Q * Q))) :
  (length h <= length (snd (draw_video_with_kp white circle self v kp_array h)))%nat
  /\ forall l, (l < length h)%nat ->
       snd (draw_video_with_kp white circle self v kp_array h) !! l = h !! l.
Proof.
  destruct (h !! v) as [src|] eqn:Hv.
  - destruct (draw_video_with_kp_drawing white circle self h v src kp_array Hv)
      as ((Hlen & Hold & _) & _).
    split; [lia | exact Hold].
  - unfold draw_video_with_kp, deref, bind. rewrite Hv. simpl. auto.
Qed.

(** [create_video_column] writes to no batch but the one it is given. *)
Lemma create_video_column_elsewhere (self : Visualizer) (h : list (ndbatch pixel))
    (v : loc) :
  length (snd (create_video_column white self v h)) = length h
  /\ forall l, l <> v -> snd (create_video_column white self v h) !! l = h !! l.
Proof.
  unfold create_video_column, paint_rows, paint_columns, deref, store.
  unfold_monad.
  destruct (draw_border self); simpl.
  - destruct (h !! v) as [b|] eqn:Hv; simpl; [|auto].
    assert (Hlt : (v < length h)%nat) by (eapply lookup_lt_Some; exact Hv).
    destruct (Nat.eqb (b_height b) 0); simpl; [auto|].
    rewrite list_lookup_insert_eq by exact Hlt. simpl.
    destruct (Nat.eqb (b_width b) 0); simpl.
    + split; [apply length_insert|]. intros l Hl. apply list_lookup_insert_ne. auto.
    + rewrite list_lookup_insert_eq by (rewrite length_insert; exact Hlt).
      rewrite list_insert_insert_eq. simpl.
      split; [apply length_insert|]. intros l Hl. apply list_lookup_insert_ne. auto.
  - destruct (h !! v) as [b|]; simpl; auto.
Qed.

Lemma on_videos_kept {A} (m : M (list (ndvideo pixel)) A) (w : arrays pixel) :
  (length (videos_of w) <= length (snd (m (videos_of w))))%nat ->
  (forall l, (l < length (videos_of w))%nat ->
     snd (m (videos_of w)) !! l = videos_of w !! l) ->
  arrays_kept (fun _ => False) w (snd (on_videos m w)).
Proof.
  intros H1 H2. unfold on_videos. destruct (m (videos_of w)) as [r h]. simpl in *.
  repeat split; auto.
Qed.

Lemma on_batches_kept {A} (m : M (list (ndbatch pixel)) A) (w : arrays pixel) :
  (length (batches_of w) <= length (snd (m (batches_of w))))%nat ->
  (forall l, (l < length (batches_of w))%nat ->
     snd (m (batches_of w)) !! l = batches_of w !! l) ->
  arrays_kept (fun _ => False) w (snd (on_batches m w)).
Proof.
  intros H1 H2. unfold on_batches. destruct (m (batches_of w)) as [r h]. simpl in *.
  repeat split; auto.
Qed.

Lemma deref_same {A} (l : loc) (h : list A) : snd (deref l h) = h.
Proof. unfold deref. destruct (h !! l); reflexivity. Qed.

(** A new batch is stitched without touching the batches already there. *)
Lemma stitch_new_batch_kept (self : Visualizer) (arr : ndbatch pixel) (w : arrays pixel) :
  arrays_kept (fun _ => False) w
    (snd ((video_array <- on_batches (alloc arr) ;;
           on_batches (create_video_column white self video_array)) w)).
Proof.
  unfold bind, on_batches, alloc. simpl.
  destruct (create_video_column_elsewhere self (batches_of w ++ [arr])
              (length (batches_of w))) as [Hlen Hother].
  destruct (create_video_column white self (length (batches_of w))
              (batches_of w ++ [arr])) as [r h'] eqn:E.
  destruct r as [out|e]; simpl in *.
  - rewrite length_app in Hlen. simpl in Hlen.
    repeat split; simpl; auto; try lia.
    intros l Hl _. rewrite Hother by lia. apply lookup_app_l. exact Hl.
  - rewrite length_app in Hlen. simpl in Hlen.
    repeat split; simpl; auto; try lia.
    intros l Hl _. rewrite Hother by lia. apply lookup_app_l. exact Hl.
Qed.

Lemma create_video_column_with_kp_kept (self : Visualizer) (video : loc)
    (kp : list (list (list (Q * Q)))) (w : arrays pixel) :
  arrays_kept (fun _ => False) w
    (snd (create_video_column_with_kp white circle self video kp w)).
Proof.
  unfold create_video_column_with_kp.
  apply bind_snd_related; [apply arrays_kept_trans| |].
  { apply on_batches_kept; rewrite deref_same; auto. }
  intros b w1.
  apply bind_snd_related; [apply arrays_kept_trans| |].
  { apply for_list_related; [apply arrays_kept_refl | apply arrays_kept_trans|].
    intros nk w2 _.
    apply bind_snd_related; [apply arrays_kept_trans| |].
    - apply on_videos_kept; unfold alloc; simpl.
      + rewrite length_app. lia.
      + intros l Hl. apply lookup_app_l. exact Hl.
    - intros v w3. apply on_videos_kept; apply draw_video_with_kp_grows. }
  intros refs w2.
  apply bind_snd_related; [apply arrays_kept_trans| |].
  { apply for_list_related; [apply arrays_kept_refl | apply arrays_kept_trans|].
    intros r w3 _. apply on_videos_kept; rewrite deref_same; auto. }
  intros drawn w3.
  destruct (stack drawn) as [arr|]; [apply stitch_new_batch_kept|].
  apply arrays_kept_refl.
Qed.

(** X14: unlike [create_video_column], [create_video_column_with_kp]
    writes to no array of its caller: whether it returns or raises, every
    video and every batch that existed before the call is still there with
    the same contents (the keypoints are drawn on copies and the borders on
    the batch built from them). *)
Theorem create_video_column_with_kp_keeps_arrays (self : Visualizer) (video : loc)
    (kp : list (list (list (Q * Q)))) (w : arrays pixel) :
  (forall l v, videos_of w !! l = Some v ->
     videos_of (snd (create_video_column_with_kp white circle self video kp w)) !! l
     = Some v)
  /\ (forall l b, batches_of w !! l = Some b ->
       batches_of (snd (create_video_column_with_kp white circle self video kp w)) !! l
       = Some b).
Proof.
  destruct (create_video_column_with_kp_kept self video kp w) as (_ & _ & Hv & Hb).
  split.
  - intros l v Hl. rewrite Hv; [exact Hl|]. apply lookup_lt_Some in Hl. exact Hl.
  - intros l b Hl. rewrite Hb; [exact Hl| |tauto]. apply lookup_lt_Some in Hl. exact Hl.
Qed.

(** X15: [create_image_grid] overwrites only the batches passed as plain
    groups: whether it returns or raises, every video on the heap and
    every batch that is not itself a plain argument is unchanged; a batch
    passed together with its keypoints is never written to. *)
Theorem create_image_grid_touches_plain_groups_only (self : Visualizer)
    (args : list group) (w : arrays pixel) :
  arrays_kept (fun l => In (Plain l) args) w
    (snd (create_image_grid white circle self args w)).
Proof.
  unfold create_image_grid.
  apply bind_snd_related; [apply arrays_kept_trans| |].
  - apply for_list_related; [apply arrays_kept_refl | apply arrays_kept_trans|].
    intros [videos|videos kp] w1 Hin.
    + unfold on_batches.
      destruct (create_video_column_elsewhere self (batches_of w1) videos)
        as [Hlen Hother].
      destruct (create_video_column white self videos (batches_of w1)) as [r h'].
      simpl in *. repeat split; simpl; auto; try lia.
      intros l Hl Hnot. apply Hother. intros ->. contradiction.
    + apply arrays_kept_weaken. apply create_video_column_with_kp_kept.
  - intros out w1. unfold lift. simpl. apply arrays_kept_refl.
Qed.

End GridFacts.

(** * The further properties on concrete objects *)

(** X1 on a logger whose report interval is zero. *)
Lemma log_argument_errors_witness :
  [("a", 1%Q)] <> []
  /\ log_freq stalled_logger = 0
  /\ demo_log 7 [("a", 1%Q)] demo_batch stalled_logger
     = (Raise ZeroDivisionError,
        set_loss_list (loss_list stalled_logger ++ [map snd [("a", 1%Q)]])
          (set_it 7 stalled_logger)).
Proof.
  assert (H1 : [("a", 1%Q)] <> ([] : list (string * Q))) by discriminate.
  assert (H2 : log_freq stalled_logger = 0) by reflexivity.
  split; [exact H1|]. split; [exact H2|].
  exact (proj2 (log_argument_errors demo_model demo_model_transfer demo_reconstruction
                  demo_transfer_grid 7 [("a", 1%Q)] demo_batch stalled_logger) H1 H2).
Defined.

(** X2 on a logger whose buffer holds records of one and of two losses. *)
Lemma ragged_buffer_is_never_flushed_witness :
  rectangular (loss_list ragged_logger) = false
  /\ rectangular (loss_list (snd (demo_log 2 [("a", 1%Q)] demo_batch ragged_logger)))
     = false
  /\ fst (demo_log 2 [("a", 1%Q)] demo_batch ragged_logger) = Raise ragged_mean.
Proof.
  assert (H : rectangular (loss_list ragged_logger) = false) by reflexivity.
  split; [exact H|].
  destruct (ragged_buffer_is_never_flushed demo_model demo_model_transfer
              demo_reconstruction demo_transfer_grid 2 [("a", 1%Q)] demo_batch
              ragged_logger H) as [K1 K2].
  split; [exact K1|]. apply K2; [discriminate | discriminate | reflexivity].
Defined.

(** X4 on the call at iteration 4 of a logger with [cpk_freq=4]. *)
Lemma log_checkpoint_can_be_loaded_witness :
  demo_log 4 [("a", 1%Q)] demo_batch frequent_logger
  = (Return tt, snd (demo_log 4 [("a", 1%Q)] demo_batch frequent_logger))
  /\ 4 mod cpk_freq frequent_logger = 0
  /\ exists o,
      optimizer frequent_logger = Some o
      /\ load_cpk (disk (snd (demo_log 4 [("a", 1%Q)] demo_batch frequent_logger)))
           (it_name (snd (demo_log 4 [("a", 1%Q)] demo_batch frequent_logger))
              "-checkpoint.pth.tar") (tt, None)
         = (Return (VInt 4), (model frequent_logger, None)).
Proof.
  assert (H1 : demo_log 4 [("a", 1%Q)] demo_batch frequent_logger
               = (Return tt, snd (demo_log 4 [("a", 1%Q)] demo_batch frequent_logger)))
    by (vm_compute; reflexivity).
  assert (H2 : 4 mod cpk_freq frequent_logger = 0) by reflexivity.
  split; [exact H1|]. split; [exact H2|].
  exact (log_checkpoint_can_be_loaded demo_model demo_model_transfer demo_reconstruction
           demo_transfer_grid 4 [("a", 1%Q)] demo_batch frequent_logger _ tt None H1 H2).
Defined.

(** X6 on an empty disk and on a checkpoint without optimizer entry. *)
Lemma load_cpk_failures_witness :
  read_file ([] : list (string * file unit unit unit)) "old.pth.tar" = None
  /\ load_cpk ([] : list (string * file unit unit unit)) "old.pth.tar" (tt, Some tt)
     = (Raise FileNotFoundError, (tt, Some tt))
  /\ read_file model_only_disk "old.pth.tar" = Some (Checkpoint model_only_checkpoint)
  /\ model_only_checkpoint !! "model" = Some (VModel tt)
  /\ model_only_checkpoint !! "optimizer" = None
  /\ load_cpk model_only_disk "old.pth.tar" (tt, Some tt)
     = (Raise (KeyError "optimizer"), (tt, Some tt)).
Proof.
  assert (H1 : read_file ([] : list (string * file unit unit unit)) "old.pth.tar" = None)
    by reflexivity.
  assert (H2 : read_file model_only_disk "old.pth.tar"
               = Some (Checkpoint model_only_checkpoint))
    by (vm_compute; reflexivity).
  assert (H3 : model_only_checkpoint !! "model" = Some (VModel tt))
    by (vm_compute; reflexivity).
  assert (H4 : model_only_checkpoint !! "optimizer" = None)
    by (vm_compute; reflexivity).
  split; [exact H1|].
  split; [exact (proj1 (load_cpk_failures [] "old.pth.tar" model_only_checkpoint
                          tt tt tt (tt, Some tt)) H1)|].
  split; [exact H2|]. split; [exact H3|]. split; [exact H4|].
  exact (proj2 (load_cpk_failures model_only_disk "old.pth.tar" model_only_checkpoint
                  tt tt tt (tt, Some tt)) H2 H3 H4).
Defined.


(** X9 on the same batch. *)
Lemma create_video_column_paints_borders_witness :
  [small_batch] !! 0%nat = Some small_batch
  /\ draw_border default_visualizer = true
  /\ b_height small_batch <> O /\ b_width small_batch <> O
  /\ exists b',
      snd (create_video_column rgb_white default_visualizer 0 [small_batch]) !! 0%nat
      = Some b'
      /\ batch_pixel_at b' 0 0 1 1 = Some rgb_black
      /\ batch_pixel_at b' 0 0 0 1 = Some rgb_white.
Proof.
  assert (Hv : [small_batch] !! 0%nat = Some small_batch) by reflexivity.
  assert (Hb : draw_border default_visualizer = true) by reflexivity.
  assert (Hh : b_height small_batch <> O) by discriminate.
  assert (Hw : b_width small_batch <> O) by discriminate.
  split; [exact Hv|]. split; [exact Hb|]. split; [exact Hh|]. split; [exact Hw|].
  destruct (create_video_column_paints_borders rgb_white default_visualizer
              [small_batch] 0%nat small_batch Hv Hb Hh Hw)
    as (b' & E & _ & _ & _ & _ & P).
  exists b'. split; [exact E|]. split.
  - rewrite (P 0 0 1 1)%nat by (simpl; lia). reflexivity.
  - rewrite (P 0 0 0 1)%nat by (simpl; lia). reflexivity.
Defined.

(** X10 on the same batch. *)
Lemma create_video_column_stitches_witness :
  [small_batch] !! 0%nat = Some small_batch
  /\ wf_batch small_batch
  /\ exists out b',
      fst (create_video_column rgb_white default_visualizer 0 [small_batch]) = Return out
      /\ snd (create_video_column rgb_white default_visualizer 0 [small_batch]) !! 0%nat
         = Some b'
      /\ height out = 3%nat
      /\ pixel_at out 0 1 1 = batch_pixel_at b' 0 0 1 1.
Proof.
  assert (Hv : [small_batch] !! 0%nat = Some small_batch) by reflexivity.
  assert (Hwf : wf_batch small_batch) by reflexivity.
  split; [exact Hv|]. split; [exact Hwf|].
  destruct (create_video_column rgb_white default_visualizer 0 [small_batch])
    as [[out|e] h'] eqn:E; [|vm_compute in E; discriminate E].
  destruct (create_video_column_stitches rgb_white default_visualizer [small_batch] h'
              0%nat small_batch out Hv Hwf E)
    as (b' & Hb' & _ & Hh & _ & _ & P).
  exists out, b'. split; [reflexivity|]. split; [exact Hb'|]. split; [exact Hh|].
  apply (P 0 0 1 1)%nat; simpl; lia.
Defined.

(** X11 on two square frames without keypoints. *)
Lemma draw_video_with_kp_without_keypoints_witness :
  [square_video] !! 0%nat = Some square_video
  /\ draw_video_with_kp rgb_white skimage_circle default_visualizer 0 [[]; []]
       [square_video]
     = (Return 1%nat, [square_video; square_video]).
Proof.
  assert (Hv : [square_video] !! 0%nat = Some square_video) by reflexivity.
  split; [exact Hv|].
  apply (draw_video_with_kp_without_keypoints rgb_white skimage_circle default_visualizer
           [square_video] 0%nat square_video [[]; []] Hv).
  intros [|[|i]] Hi; [reflexivity | reflexivity | simpl in Hi; lia].
Defined.

(** X12 on two square frames, the first with the keypoint [(1, 1)]: the
    pixel at the keypoint is painted, the pixel at row 3, column 3 is not. *)
Lemma draw_video_with_kp_paints_disks_witness :
  [square_video] !! 0%nat = Some square_video
  /\ wf_video square_video
  /\ exists h' res,
      draw_video_with_kp rgb_white skimage_circle default_visualizer 0
        [[(1%Q, 1%Q)]; []] [square_video] = (Return 1%nat, h')
      /\ h' !! 1%nat = Some res
      /\ (covered skimage_circle default_visualizer square_video [(1%Q, 1%Q)] 1 1 ->
          pixel_at res 0 1 1 = Some rgb_white).
Proof.
  assert (Hv : [square_video] !! 0%nat = Some square_video) by reflexivity.
  assert (Hwf : wf_video square_video) by reflexivity.
  split; [exact Hv|]. split; [exact Hwf|].
  destruct (draw_video_with_kp rgb_white skimage_circle default_visualizer 0
              [[(1%Q, 1%Q)]; []] [square_video]) as [[out|e] h'] eqn:E;
    [|vm_compute in E; discriminate E].
  assert (Hout : out = 1%nat) by (vm_compute in E; congruence).
  subst out.
  destruct (draw_video_with_kp_paints_disks rgb_white skimage_circle default_visualizer
              [square_video] h' 0%nat 1%nat square_video [[(1%Q, 1%Q)]; []] Hv Hwf E)
    as (res & Hres & P).
  exists h', res. split; [reflexivity|]. split; [exact Hres|].
  intros Hc.
  apply (proj1 (P 0%nat [(1%Q, 1%Q)] 1%nat 1%nat ltac:(simpl; lia) eq_refl
                  ltac:(simpl; lia) ltac:(simpl; lia))).
  exact Hc.
Defined.

(** X13 on two square frames and a keypoint array with one entry. *)
Lemma draw_video_with_kp_short_keypoint_array_witness :
  [square_video] !! 0%nat = Some square_video
  /\ (length [([] : list (Q * Q))] < frames square_video)%nat
  /\ exists e h',
      draw_video_with_kp rgb_white skimage_circle default_visualizer 0 [[]]
        [square_video] = (Raise e, h').
Proof.
  assert (Hv : [square_video] !! 0%nat = Some square_video) by reflexivity.
  assert (Hl : (length [([] : list (Q * Q))] < frames square_video)%nat)
    by (simpl; lia).
  split; [exact Hv|]. split; [exact Hl|].
  exact (draw_video_with_kp_short_keypoint_array rgb_white skimage_circle
           default_visualizer [square_video] 0%nat square_video [[]] Hv Hl).
Defined.

Lemma servable_loop_returns_witness :
  Forall (servable 2) [demo_call 1; demo_call 2; demo_call 3; demo_call 4]
  /\ exists s',
      demo_run [demo_call 1; demo_call 2; demo_call 3; demo_call 4]
        (init tt "log" (Some tt) 2 4 8 [])
      = (Return tt, s').
Proof.
  assert (H : Forall (servable 2)
                [demo_call 1; demo_call 2; demo_call 3; demo_call 4]).
  { repeat constructor. }
  split; [exact H|].
  apply (servable_loop_returns demo_model demo_model_transfer demo_reconstruction
           demo_transfer_grid 2); try (intros; eexists; reflexivity);
    try discriminate; try lia.
  exact H.
Defined.
